(** * AgoraX server: presence registry, room table and chat relay

    A shallow embedding of [api/index.ts].  The server keeps two process-wide
    tables, [onlineUsers] and [rooms], and registers six socket.io handlers
    that mutate them and emit broadcasts.  Each handler is embedded as a
    computation in a small monad that threads the two tables, records every
    call made to the outside world (socket.io, console, fs, fetch) in
    source order, and can complete normally or by a thrown exception.

    Modelling conventions.
    - A JavaScript string is a [string]; one character of the model stands for
      one UTF-16 code unit (the model covers code units below 256).
    - A payload field that the client may leave out is an [option string],
      [None] standing for [undefined].
    - [rooms] is a plain object used as a dictionary: its own properties are
      a [gmap] from the property key to the member array, and a key that is
      not an own property is looked up in [Object.prototype], as the
      expression [rooms[roomId]] does.  The order in which [for ... in]
      visits the own keys is that of [map_to_list]; no statement below
      depends on that order.
    - An event can arrive without a payload; the listeners that destructure
      their parameter then fail before their first statement.
    - socket.io serialises an emitted payload when [emit] is called, so an
      emission carries the value the table had at that moment. *)

From Stdlib Require Import ZArith NArith Ascii String.
From stdpp Require Import base option list strings gmap fin_maps.

(** ** JavaScript values of the payload fields *)

(** [!!v] for a value that is a string or [undefined]. *)
Definition truthy (v : option string) : bool :=
  match v with
  | Some s => negb (String.eqb s EmptyString)
  | None => false
  end.

(** [String(v)], also what a template literal does to [v]; it is the property
    key under which [rooms[v]] is looked up as well. *)
Definition String_ (v : option string) : string :=
  match v with
  | Some s => s
  | None => "undefined"
  end.

(** [a || b] where [b] is a string. *)
Definition js_or (a : option string) (b : string) : string :=
  if truthy a then String_ a else b.

(** ** Data model *)

(** An element of [onlineUsers]. *)
Record OnlineUser := { socketId : string; userId : string }.

(** An element of [rooms[roomId]]. *)
Record RoomUser := { member_socketId : string; username : option string }.

(** The object sent on the [message] event; [timestamp] is the [Date] in
    milliseconds since the epoch. *)
Record Message :=
  { id : string; user : option string; text : option string; timestamp : Z }.

(** The two module-level tables. *)
Record State :=
  { onlineUsers : list OnlineUser;
    rooms : gmap string (list RoomUser) }.

Definition initial : State := {| onlineUsers := []; rooms := ∅ |}.

Definition set_onlineUsers (l : list OnlineUser) (st : State) : State :=
  {| onlineUsers := l; rooms := rooms st |}.

Definition set_rooms (m : gmap string (list RoomUser)) (st : State) : State :=
  {| onlineUsers := onlineUsers st; rooms := m |}.

(** Payloads of the three outbound events.  [roomUsers] carries the value of
    the expression [rooms[roomId]], which is [undefined] for a missing key. *)
Inductive Outbound :=
  | usersOnline (users : list OnlineUser)
  | roomUsers (users : option (list RoomUser))
  | message (m : Message).

(** Body of the POST request sent to the backend. *)
Record Participant :=
  { p_email : option string; p_userId : option string; p_name : option string }.

(** A thrown or rejected value, by its message. *)
Inductive Exn := Error (what : string).

Definition what_of (e : Exn) : string := let 'Error w := e in w.

(** Calls to the outside world, as the handlers make them. *)
Inductive Effect :=
  | console_log (args : list string)
  | console_warn (args : list string)
  | socket_join (sid : string) (room : option string)
  | socket_leave (sid : string) (room : option string)
  | socket_data (sid field : string) (value : option string)
  | io_emit (ev : Outbound)
  | io_to_emit (room : option string) (ev : Outbound)
  | fs_mkdirSync (dir : string)
  | fs_appendFile (file data : string)
  | fetch (url : string) (body : Participant).

(** ** The handler monad: state, trace of effects, exceptions *)

Inductive Completion (A : Type) :=
  | Normal (a : A)
  | Throw (e : Exn).
Arguments Normal {A} a.
Arguments Throw {A} e.

Definition M (A : Type) : Type := State → Completion A * State * list Effect.

Definition ret {A} (a : A) : M A := λ st, (Normal a, st, []).

Definition bind {A B} (c : M A) (k : A → M B) : M B := λ st,
  match c st with
  | (Normal a, st1, tr1) =>
      let '(r, st2, tr2) := k a st1 in (r, st2, tr1 ++ tr2)
  | (Throw e, st1, tr1) => (Throw e, st1, tr1)
  end.

Definition throw {A} (e : Exn) : M A := λ st, (Throw e, st, []).

(** [try { body } catch (e) { handler }]: mutations made before the throw
    stay, as in JavaScript. *)
Definition try_catch {A} (body : M A) (handler : Exn → M A) : M A := λ st,
  match body st with
  | (Normal a, st1, tr1) => (Normal a, st1, tr1)
  | (Throw e, st1, tr1) =>
      let '(r, st2, tr2) := handler e st1 in (r, st2, tr1 ++ tr2)
  end.

Definition get : M State := λ st, (Normal st, st, []).
Definition put (st' : State) : M unit := λ _, (Normal tt, st', []).
Definition tell (e : Effect) : M unit := λ st, (Normal tt, st, [e]).

Declare Scope js_scope.
Delimit Scope js_scope with js.
Notation "'let*' x ':=' c 'in' k" := (bind c (λ x, k))
  (at level 10, x name, c at level 100, k at level 200) : js_scope.
Notation "c >> k" := (bind c (λ _, k))
  (at level 90, right associativity) : js_scope.
Local Open Scope js_scope.

(** [for (const x of xs) body]. *)
Fixpoint for_each {A} (xs : list A) (body : A → M unit) : M unit :=
  match xs with
  | [] => ret tt
  | x :: xs' => body x >> for_each xs' body
  end.

(** Projections of a finished computation. *)
Definition completion {A} (r : Completion A * State * list Effect) : Completion A :=
  r.1.1.
Definition state_of {A} (r : Completion A * State * list Effect) : State :=
  r.1.2.
Definition trace_of {A} (r : Completion A * State * list Effect) : list Effect :=
  r.2.

(** ** Library functions used by the handlers *)

(** [Array.prototype.findIndex]: index of the first element satisfying [p],
    [-1] when there is none. *)
Fixpoint findIndex_from {A} (p : A → bool) (l : list A) (i : Z) : Z :=
  match l with
  | [] => (-1)%Z
  | x :: l' => if p x then i else findIndex_from p l' (i + 1)%Z
  end.

Definition findIndex {A} (p : A → bool) (l : list A) : Z := findIndex_from p l 0.

(** [Array.prototype.find]. *)
Fixpoint find_first {A} (p : A → bool) (l : list A) : option A :=
  match l with
  | [] => None
  | x :: l' => if p x then Some x else find_first p l'
  end.

(** The character class [[a-zA-Z0-9-_]]. *)
Definition safe_char (c : ascii) : bool :=
  let n := nat_of_ascii c in
  ((97 <=? n) && (n <=? 122)) || ((65 <=? n) && (n <=? 90))
  || ((48 <=? n) && (n <=? 57)) || Ascii.eqb c "-" || Ascii.eqb c "_".

(** [s.replace(/[^a-zA-Z0-9-_]/g, '_')]. *)
Fixpoint sanitize (s : string) : string :=
  match s with
  | EmptyString => EmptyString
  | String c s' => String (if safe_char c then c else "_"%char) (sanitize s')
  end.

(** [s.replace(/\/+$/, '')]: drop the slashes at the end. *)
Fixpoint strip_trailing_slashes (s : string) : string :=
  match s with
  | EmptyString => EmptyString
  | String c s' =>
      match strip_trailing_slashes s' with
      | EmptyString => if Ascii.eqb c "/" then EmptyString else String c EmptyString
      | r => String c r
      end
  end.

(** *** [crypto.randomUUID]

    A version 4 UUID: sixteen random bytes, the version nibble forced to 4
    and the variant bits to 10, printed as 8-4-4-4-12 lower-case hexadecimal
    digits.  [entropy] is the number whose base-256 digits are the bytes
    drawn from the generator. *)
Definition hex_digit (n : N) : ascii :=
  match n with
  | 0 => "0" | 1 => "1" | 2 => "2" | 3 => "3" | 4 => "4" | 5 => "5"
  | 6 => "6" | 7 => "7" | 8 => "8" | 9 => "9" | 10 => "a" | 11 => "b"
  | 12 => "c" | 13 => "d" | 14 => "e" | _ => "f"
  end%N%char.

(** The value of a hexadecimal digit. *)
Definition hex_value (c : ascii) : N :=
  let n := N_of_ascii c in
  if (97 <=? n)%N then n - 87 else n - 48.

Definition hex_byte (b : N) : string :=
  String (hex_digit (N.shiftr b 4 mod 16))
    (String (hex_digit (b mod 16)) EmptyString).

Definition random_byte (entropy : N) (i : N) : N :=
  N.land (N.shiftr entropy (8 * i)) 255.

Definition uuid_byte (entropy : N) (i : N) : N :=
  let b := random_byte entropy i in
  if (i =? 6)%N then N.lor (N.land b 15) 64
  else if (i =? 8)%N then N.lor (N.land b 63) 128
  else b.

Definition randomUUID (entropy : N) : string :=
  let hex := λ i, hex_byte (uuid_byte entropy i) in
  (hex 0 +:+ hex 1 +:+ hex 2 +:+ hex 3 +:+ "-" +:+
   hex 4 +:+ hex 5 +:+ "-" +:+
   hex 6 +:+ hex 7 +:+ "-" +:+
   hex 8 +:+ hex 9 +:+ "-" +:+
   hex 10 +:+ hex 11 +:+ hex 12 +:+ hex 13 +:+ hex 14 +:+ hex 15)%N.

(** ** The environment of one handler invocation

    What the handler reads from the process, the clock, the random generator
    and the file system, and how the calls that can fail turn out. *)

Inductive AppendOutcome :=
  | AppendOk
  | AppendErr (e : Exn)      (* the callback receives an error *)
  | AppendThrows (e : Exn).  (* the call itself throws *)

Record Env :=
  { (* clock, in milliseconds since the epoch: the time at which the handler
       is invoked and the time elapsed until each [new Date()] it evaluates *)
    call_time : Z;
    elapsed_to_timestamp : N;
    elapsed_to_entry : N;
    toISOString : Z → string;
    (* bytes drawn by [crypto.randomUUID] *)
    entropy : N;
    (* [process.env], [process.cwd()] *)
    TRANSCRIPTS_DIR : option string;
    BACKEND_BASE : option string;
    cwd : string;
    (* [path], [fs] *)
    path_join : list string → string;
    existsSync : string → bool;
    mkdirSync_error : string → option Exn;
    appendFile_outcome : string → AppendOutcome;
    (* [encodeURIComponent] (throws on a lone surrogate), [fetch] *)
    encodeURIComponent : string → Exn + string;
    fetch_rejection : string → option Exn }.

(** The first and the second [new Date()] of [sendMessage]. *)
Definition Date_timestamp (env : Env) : Z :=
  (call_time env + Z.of_N (elapsed_to_timestamp env))%Z.

Definition Date_entry (env : Env) : Z :=
  (Date_timestamp env + Z.of_N (elapsed_to_entry env))%Z.

(** ** The handlers of [api/index.ts] *)

(** The property names every object inherits from [Object.prototype]. *)
Definition Object_prototype : list string :=
  [ "constructor"; "__defineGetter__"; "__defineSetter__"; "hasOwnProperty";
    "__lookupGetter__"; "__lookupSetter__"; "isPrototypeOf";
    "propertyIsEnumerable"; "toString"; "valueOf"; "__proto__";
    "toLocaleString" ].

Definition inherited (key : string) : bool :=
  existsb (String.eqb key) Object_prototype.

(** The value of the expression [rooms[key]]: the member array when the key
    is an own property; else what [Object.prototype] holds under that name
    (a function, or the prototype itself for [__proto__]), which is truthy
    and has neither a [push] nor a [filter] method; else [undefined]. *)
Inductive RoomsValue :=
  | Members (l : list RoomUser)
  | Inherited
  | Undefined.

Definition rooms_get (key : string) : M RoomsValue :=
  let* st := get in
  ret match rooms st !! key with
      | Some l => Members l
      | None => if inherited key then Inherited else Undefined
      end.

(** The [TypeError]s of the handlers. *)
Definition push_TypeError : Exn :=
  Error "TypeError: rooms[roomId].push is not a function".

Definition filter_TypeError : Exn :=
  Error "TypeError: rooms[roomId].filter is not a function".

Definition destructure_TypeError : Exn :=
  Error "TypeError: Cannot destructure property 'roomId' of 'undefined' as it is undefined.".

(** [rooms[key]] where the key is an own property: right after an assignment
    to it, and for a key handed out by [for ... in]. *)
Definition read_room (key : string) : M (option (list RoomUser)) :=
  let* st := get in ret (rooms st !! key).

Definition write_room (key : string) (l : list RoomUser) : M unit :=
  let* st := get in put (set_rooms (<[key := l]> (rooms st)) st).

Definition write_onlineUsers (l : list OnlineUser) : M unit :=
  let* st := get in put (set_onlineUsers l st).

(** [io.emit("usersOnline", onlineUsers)]. *)
Definition emit_usersOnline : M unit :=
  let* st := get in tell (io_emit (usersOnline (onlineUsers st))).

(** [io.to(roomId).emit("roomUsers", rooms[roomId])]. *)
Definition emit_roomUsers (roomId : option string) : M unit :=
  let* users := read_room (String_ roomId) in
  tell (io_to_emit roomId (roomUsers users)).

(** [io.on("connection", ...)], up to the registration of the listeners. *)
Definition connection (sid : string) : M unit :=
  tell (console_log ["User connected:"; sid]) >>
  (let* st := get in
   write_onlineUsers
     (onlineUsers st ++ [{| socketId := sid; userId := EmptyString |}])) >>
  emit_usersOnline.

(** [socket.on("newUser", ...)]. *)
Definition newUser (sid : string) (uid : option string) : M unit :=
  if negb (truthy uid) then ret tt
  else
    let* st := get in
    let index := findIndex (λ u, bool_decide (socketId u = sid)) (onlineUsers st) in
    (if bool_decide (index ≠ (-1)%Z) then
       match onlineUsers st !! Z.to_nat index with
       | Some u =>
           write_onlineUsers
             (<[Z.to_nat index := {| socketId := socketId u; userId := String_ uid |}]>
                (onlineUsers st))
       | None => throw (Error "TypeError")
       end
     else
       write_onlineUsers
         (onlineUsers st ++ [{| socketId := sid; userId := String_ uid |}])) >>
    emit_usersOnline.

(** The best-effort POST to the backend, inner [try] of [joinRoom]. *)
Definition notify_backend (env : Env) (roomId username email uid : option string)
  : M unit :=
  let backend := js_or (BACKEND_BASE env) "http://localhost:3000" in
  if truthy email then
    match encodeURIComponent env (String_ roomId) with
    | inl e => throw e
    | inr room =>
        let url := strip_trailing_slashes backend +:+ "/api/meetings/" +:+ room
                   +:+ "/participants" in
        tell (fetch url {| p_email := email; p_userId := uid; p_name := username |}) >>
        match fetch_rejection env url with
        | Some e => throw e
        | None => ret tt
        end
    end
  else ret tt.

(** [socket.on("joinRoom", ...)]. *)
Definition joinRoom (env : Env) (sid : string)
    (roomId username email uid : option string) : M unit :=
  try_catch
    (tell (socket_join sid roomId) >>
     tell (socket_data sid "username" username) >>
     tell (socket_data sid "email" email) >>
     (let* r := rooms_get (String_ roomId) in
      match r with
      | Undefined => write_room (String_ roomId) []
      | Members _ | Inherited => ret tt
      end) >>
     (let* r := rooms_get (String_ roomId) in
      match r with
      | Members l =>
          write_room (String_ roomId)
            (l ++ [{| member_socketId := sid; username := username |}])
      | Inherited | Undefined => throw push_TypeError
      end) >>
     tell (console_log
             ["User " +:+ String_ username +:+ " joined room " +:+ String_ roomId]) >>
     emit_roomUsers roomId >>
     try_catch
       (notify_backend env roomId username email uid)
       (λ e, tell (console_warn
                     ["[chat] failed to persist participant to backend"; what_of e])))
    (λ e, tell (console_warn ["[chat] joinRoom handler error"; what_of e])).

(** [socket.on("leaveRoom", ...)]. *)
Definition leaveRoom (sid : string) (roomId : option string) : M unit :=
  tell (socket_leave sid roomId) >>
  (let* r := rooms_get (String_ roomId) in
   match r with
   | Members l =>
       write_room (String_ roomId) (filter (λ u, member_socketId u ≠ sid) l) >>
       emit_roomUsers roomId
   | Inherited => throw filter_TypeError
   | Undefined => ret tt
   end) >>
  tell (console_log ["User left room " +:+ String_ roomId]).

(** The transcript directory chosen by [sendMessage]. *)
Definition transcripts_dir (env : Env) : string :=
  let defaultCandidates :=
    [ path_join env [cwd env; ".."; "AgoraX_resume"; "tmp"; "transcripts"];
      path_join env [cwd env; ".."; "agoraX_back"; "tmp"; "transcripts"] ] in
  let transcriptsDir := js_or (TRANSCRIPTS_DIR env) EmptyString in
  if negb (truthy (Some transcriptsDir)) then
    let found := find_first (existsSync env) defaultCandidates in
    js_or found (path_join env [cwd env; ".."; "AgoraX_resume"; "tmp"; "transcripts"])
  else transcriptsDir.

Definition transcript_name (roomId user : option string) : string :=
  let safeUser := sanitize (js_or user "unknown") in
  let safeRoom := sanitize (js_or roomId "global") in
  "transcript-" +:+ safeRoom +:+ "-" +:+ safeUser +:+ ".txt".

Definition transcript_entry (env : Env) (user text : option string) : string :=
  "[" +:+ toISOString env (Date_entry env) +:+ "] (chat) " +:+ String_ user
  +:+ ": " +:+ String_ text +:+ String "010"%char EmptyString.

(** The [try] block of [sendMessage]; [require('fs')] and [require('path')]
    resolve (a CommonJS build). *)
Definition append_transcript (env : Env) (roomId user text : option string)
  : M unit :=
  let transcriptsDir := transcripts_dir env in
  (if negb (existsSync env transcriptsDir) then
     tell (fs_mkdirSync transcriptsDir) >>
     match mkdirSync_error env transcriptsDir with
     | Some e => throw e
     | None => ret tt
     end
   else ret tt) >>
  let transcriptFile :=
    path_join env [transcriptsDir; transcript_name roomId user] in
  let entry := transcript_entry env user text in
  tell (fs_appendFile transcriptFile entry) >>
  match appendFile_outcome env transcriptFile with
  | AppendOk => ret tt
  | AppendErr err =>
      tell (console_warn ["Failed to append chat to transcript"; what_of err])
  | AppendThrows e => throw e
  end.

(** [socket.on("sendMessage", ...)]. *)
Definition sendMessage (env : Env) (roomId user text : option string) : M unit :=
  tell (io_to_emit roomId
          (message {| id := randomUUID (entropy env);
                      user := user;
                      text := text;
                      timestamp := Date_timestamp env |})) >>
  try_catch
    (append_transcript env roomId user text)
    (λ e, tell (console_warn ["Failed adding chat to transcripts"; what_of e])).

(** The keys visited by [for (const roomId in rooms)]. *)
Definition room_keys (st : State) : list string := (map_to_list (rooms st)).*1.

(** Body of the loop of [disconnect]. *)
Definition purge_room (sid roomId : string) : M unit :=
  (let* r := read_room roomId in
   match r with
   | Some l => write_room roomId (filter (λ u, member_socketId u ≠ sid) l)
   | None => throw (Error "TypeError")
   end) >>
  emit_roomUsers (Some roomId).

(** [socket.on("disconnect", ...)]. *)
Definition disconnect (sid : string) : M unit :=
  tell (console_log ["User disconnected:"; sid]) >>
  (let* st := get in for_each (room_keys st) (purge_room sid)) >>
  (let* st := get in
   write_onlineUsers (filter (λ u, socketId u ≠ sid) (onlineUsers st))) >>
  emit_usersOnline.

(** ** Events delivered by the transport, and runs *)

(** [JoinRoom] and [SendMessage] carry the fields of a payload object (a
    field the object lacks is [None]); the last two events are the same
    events sent without a payload, or with [null]. *)
Inductive Inbound :=
  | Connection (sid : string)
  | NewUser (sid : string) (uid : option string)
  | JoinRoom (sid : string) (roomId username email uid : option string)
  | LeaveRoom (sid : string) (roomId : option string)
  | SendMessage (sid : string) (roomId user text : option string)
  | Disconnect (sid : string)
  | JoinRoom_no_payload (sid : string)
  | SendMessage_no_payload (sid : string).

(** The listeners of [joinRoom] and [sendMessage] destructure their
    parameter, [({ roomId, ... }) => ...]: without a payload that fails
    before the first statement of the body, outside the [try] blocks.  For
    the [async] listener of [joinRoom] the failure is the rejection of the
    promise it returns, which nothing handles: Node (16 and later, the
    versions the project names) treats it as an uncaught exception. *)
Definition handle (env : Env) (ev : Inbound) : M unit :=
  match ev with
  | Connection sid => connection sid
  | NewUser sid uid => newUser sid uid
  | JoinRoom sid roomId username email uid =>
      joinRoom env sid roomId username email uid
  | LeaveRoom sid roomId => leaveRoom sid roomId
  | SendMessage _ roomId user text => sendMessage env roomId user text
  | Disconnect sid => disconnect sid
  | JoinRoom_no_payload _ | SendMessage_no_payload _ => throw destructure_TypeError
  end.

(** Events are handled one at a time, each to completion; an exception that
    escapes a handler (an unhandled rejection included) ends the run. *)
Definition run (evs : list (Env * Inbound)) : M unit :=
  for_each evs (λ '(env, ev), handle env ev).

(** ** Observations on a trace *)

(** The [roomUsers] broadcasts of a trace: target room and payload. *)
Definition roomUsers_of (e : Effect) : option (option string * option (list RoomUser)) :=
  match e with
  | io_to_emit room (roomUsers users) => Some (room, users)
  | _ => None
  end.

Definition roomUsers_broadcasts (tr : list Effect)
  : list (option string * option (list RoomUser)) :=
  omap roomUsers_of tr.

(** All the broadcasts of a trace, whatever the event. *)
Definition is_broadcast (e : Effect) : bool :=
  match e with
  | io_emit _ | io_to_emit _ _ => true
  | _ => false
  end.

Definition broadcasts (tr : list Effect) : list Effect :=
  filter (λ e, is_broadcast e = true) tr.

(** The [fs.appendFile] calls of a trace: file and data. *)
Definition appendFile_of (e : Effect) : option (string * string) :=
  match e with
  | fs_appendFile file data => Some (file, data)
  | _ => None
  end.

Definition appendFile_calls (tr : list Effect) : list (string * string) :=
  omap appendFile_of tr.

(** The connection has an entry in the member list. *)
Definition member_of (sid : string) (l : list RoomUser) : Prop :=
  sid ∈ member_socketId <$> l.

(** The entries of the connection in a member list. *)
Definition entries_of (sid : string) (l : list RoomUser) : list RoomUser :=
  filter (λ u, member_socketId u = sid) l.

(** The member list without the entries of the connection. *)
Definition without (sid : string) (l : list RoomUser) : list RoomUser :=
  filter (λ u, member_socketId u ≠ sid) l.

(** The broadcast sent for one room by [disconnect]. *)
Definition purge_broadcast (sid : string) (kl : string * list RoomUser) : Effect :=
  io_to_emit (Some kl.1) (roomUsers (Some (without sid kl.2))).

(** The event puts an entry for the connection into [onlineUsers]. *)
Definition registers (sid : string) (ev : Inbound) : Prop :=
  ev = Connection sid ∨ ∃ uid, ev = NewUser sid uid.

(** No [disconnect] of the connection among the events. *)
Definition stays_connected (sid : string) (evs : list (Env * Inbound)) : Prop :=
  ∀ env, (env, Disconnect sid) ∉ evs.

(** A server with two connections and four rooms: the first connection is in
    rooms [standup] and [retro], the second in [standup] and [design], and
    room [lounge] has been left by everybody. *)
Definition busy_state : State :=
  {| onlineUsers :=
       [ {| socketId := "s1"; userId := "u1" |};
         {| socketId := "s2"; userId := EmptyString |} ];
     rooms :=
       <["standup" := [ {| member_socketId := "s1"; username := Some "Alice" |};
                        {| member_socketId := "s2"; username := Some "Bob" |} ] ]>
       (<["retro" := [ {| member_socketId := "s1"; username := Some "Alice" |} ] ]>
       (<["design" := [ {| member_socketId := "s2"; username := Some "Bob" |} ] ]>
       (<["lounge" := [] ]> ∅))) |}.

(** An environment in which nothing fails, on a POSIX file system, at noon
    UTC on 1 May 2024; its clock is read by [toISOString] one millisecond
    later. *)
Definition posix_env : Env :=
  {| call_time := 1714564800000;
     elapsed_to_timestamp := 0;
     elapsed_to_entry := 1;
     toISOString := λ _, "2024-05-01T12:00:00.001Z";
     entropy := 123456789012345678901234567890;
     TRANSCRIPTS_DIR := None;
     BACKEND_BASE := None;
     cwd := "/srv/agoraX_server";
     path_join := String.concat "/";
     existsSync := λ _, false;
     mkdirSync_error := λ _, None;
     appendFile_outcome := λ _, AppendOk;
     encodeURIComponent := inr;
     fetch_rejection := λ _, None |}.

(** The same machine with a read-only disk and an unreachable backend. *)
Definition failing_env : Env :=
  {| call_time := call_time posix_env;
     elapsed_to_timestamp := elapsed_to_timestamp posix_env;
     elapsed_to_entry := elapsed_to_entry posix_env;
     toISOString := toISOString posix_env;
     entropy := entropy posix_env;
     TRANSCRIPTS_DIR := Some "/var/transcripts";
     BACKEND_BASE := Some "http://backend:3000/";
     cwd := cwd posix_env;
     path_join := path_join posix_env;
     existsSync := λ _, false;
     mkdirSync_error := λ _, Some (Error "EROFS");
     appendFile_outcome := λ _, AppendErr (Error "EROFS");
     encodeURIComponent := inr;
     fetch_rejection := λ _, Some (Error "ECONNREFUSED") |}.

(** ** Start-up: the allowed origins

    [(process.env.ORIGIN ?? "").split(",").map(s => s.trim()).filter(Boolean)] *)

(** White space and line terminators, as [String.prototype.trim] sees them
    among the code units below 256: TAB, LF, VT, FF, CR, space, NBSP. *)
Definition is_white_space (c : ascii) : bool :=
  let n := nat_of_ascii c in
  ((9 <=? n) && (n <=? 13)) || (n =? 32) || (n =? 160).

Fixpoint trimStart (s : string) : string :=
  match s with
  | EmptyString => EmptyString
  | String c s' => if is_white_space c then trimStart s' else s
  end.

Fixpoint trimEnd (s : string) : string :=
  match s with
  | EmptyString => EmptyString
  | String c s' =>
      match trimEnd s' with
      | EmptyString => if is_white_space c then EmptyString else String c EmptyString
      | r => String c r
      end
  end.

(** [s.trim()]. *)
Definition trim (s : string) : string := trimEnd (trimStart s).

(** [s.split(",")]: never empty, [[""]] for the empty string. *)
Fixpoint split_comma (s : string) : list string :=
  match s with
  | EmptyString => [EmptyString]
  | String c s' =>
      if Ascii.eqb c ","%char then EmptyString :: split_comma s'
      else match split_comma s' with
           | x :: xs => String c x :: xs
           | [] => [String c EmptyString]
           end
  end.

(** The constant [origins], as a function of [process.env.ORIGIN]. *)
Definition origins (ORIGIN : option string) : list string :=
  filter (λ s, s ≠ EmptyString) (trim <$> split_comma (default EmptyString ORIGIN)).

(** Shape of a string: its first and last characters, its characters. *)
Definition chars (s : string) : list ascii := list_ascii_of_string s.

Definition starts_with_space (s : string) : bool :=
  match s with
  | String c _ => is_white_space c
  | EmptyString => false
  end.

Fixpoint ends_with_space (s : string) : bool :=
  match s with
  | EmptyString => false
  | String c EmptyString => is_white_space c
  | String _ s' => ends_with_space s'
  end.

(** An origin as [origins] hands it to the CORS layer. *)
Definition clean_origin (o : string) : Prop :=
  o ≠ EmptyString
  ∧ starts_with_space o = false
  ∧ ends_with_space o = false
  ∧ ","%char ∉ chars o.

(** ** Further observations on a trace *)

(** The [usersOnline] broadcasts of a trace. *)
Definition usersOnline_of (e : Effect) : option (list OnlineUser) :=
  match e with
  | io_emit (usersOnline users) => Some users
  | _ => None
  end.

Definition usersOnline_broadcasts (tr : list Effect) : list (list OnlineUser) :=
  omap usersOnline_of tr.

(** The [fetch] calls of a trace: URL and body. *)
Definition fetch_of (e : Effect) : option (string * Participant) :=
  match e with
  | fetch url body => Some (url, body)
  | _ => None
  end.

Definition fetch_calls (tr : list Effect) : list (string * Participant) :=
  omap fetch_of tr.

(** The directories a trace creates. *)
Definition mkdirSync_of (e : Effect) : option string :=
  match e with
  | fs_mkdirSync dir => Some dir
  | _ => None
  end.

Definition mkdirSync_calls (tr : list Effect) : list string :=
  omap mkdirSync_of tr.

(** The last character of a string. *)
Fixpoint last_char (s : string) : option ascii :=
  match s with
  | EmptyString => None
  | String c EmptyString => Some c
  | String _ s' => last_char s'
  end.

(** [n] slashes. *)
Fixpoint slashes (n : nat) : string :=
  match n with
  | O => EmptyString
  | S n' => String "/"%char (slashes n')
  end.

(** The base URL of the backend and the two default transcript
    directories, as [joinRoom] and [sendMessage] compute them. *)
Definition backend_base (env : Env) : string :=
  strip_trailing_slashes (js_or (BACKEND_BASE env) "http://localhost:3000").

Definition resume_transcripts (env : Env) : string :=
  path_join env [cwd env; ".."; "AgoraX_resume"; "tmp"; "transcripts"].

Definition back_transcripts (env : Env) : string :=
  path_join env [cwd env; ".."; "agoraX_back"; "tmp"; "transcripts"].

(** ** The tables as functions of the events

    What each event does to [rooms] and to [onlineUsers], without the
    monad; the handlers are proved to compute exactly this. *)

(** The key can hold a member list: it is an own property of [rooms], or no
    name inherited from [Object.prototype] is in the way. *)
Definition usable_key (m : gmap string (list RoomUser)) (key : string) : bool :=
  match m !! key with
  | Some _ => true
  | None => negb (inherited key)
  end.

Definition rooms_step (ev : Inbound) (m : gmap string (list RoomUser))
  : gmap string (list RoomUser) :=
  match ev with
  | JoinRoom sid roomId username _ _ =>
      if usable_key m (String_ roomId) then
        <[String_ roomId := default [] (m !! String_ roomId)
                            ++ [{| member_socketId := sid; username := username |}]]> m
      else m
  | LeaveRoom sid roomId => alter (without sid) (String_ roomId) m
  | Disconnect sid => without sid <$> m
  | Connection _ | NewUser _ _ | SendMessage _ _ _ _
  | JoinRoom_no_payload _ | SendMessage_no_payload _ => m
  end.

(** The first entry of the socket gets the user id; [None] without entry. *)
Fixpoint set_userId (sid uid : string) (l : list OnlineUser)
  : option (list OnlineUser) :=
  match l with
  | [] => None
  | u :: l' =>
      if decide (socketId u = sid)
      then Some ({| socketId := sid; userId := uid |} :: l')
      else (u ::.) <$> set_userId sid uid l'
  end.

Definition registry_step (ev : Inbound) (l : list OnlineUser) : list OnlineUser :=
  match ev with
  | Connection sid => l ++ [{| socketId := sid; userId := EmptyString |}]
  | NewUser sid uid =>
      if truthy uid
      then default (l ++ [{| socketId := sid; userId := String_ uid |}])
             (set_userId sid (String_ uid) l)
      else l
  | Disconnect sid => filter (λ u, socketId u ≠ sid) l
  | JoinRoom _ _ _ _ _ | LeaveRoom _ _ | SendMessage _ _ _ _
  | JoinRoom_no_payload _ | SendMessage_no_payload _ => l
  end.

Definition step (ev : Inbound) (st : State) : State :=
  {| onlineUsers := registry_step ev (onlineUsers st);
     rooms := rooms_step ev (rooms st) |}.

(** The exception that escapes the handler of the event, if one does. *)
Definition escapes (ev : Inbound) (st : State) : option Exn :=
  match ev with
  | LeaveRoom _ roomId =>
      if usable_key (rooms st) (String_ roomId) then None else Some filter_TypeError
  | JoinRoom_no_payload _ | SendMessage_no_payload _ => Some destructure_TypeError
  | Connection _ | NewUser _ _ | JoinRoom _ _ _ _ _ | SendMessage _ _ _ _
  | Disconnect _ => None
  end.

(** A run, without the monad: it stops at the first handler that lets an
    exception escape. *)
Fixpoint steps (evs : list Inbound) (st : State) : Completion unit * State :=
  match evs with
  | [] => (Normal tt, st)
  | ev :: evs' =>
      match escapes ev st with
      | Some e => (Throw e, step ev st)
      | None => steps evs' (step ev st)
      end
  end.

(** The events that only concern the presence registry. *)
Definition registry_event (ev : Inbound) : bool :=
  match ev with
  | Connection _ | NewUser _ _ | Disconnect _ => true
  | _ => false
  end.

(** The room keys an event can create. *)
Definition created_key (ev : Inbound) : gset string :=
  match ev with
  | JoinRoom _ roomId _ _ _ =>
      if inherited (String_ roomId) then ∅ else {[ String_ roomId ]}
  | _ => ∅
  end.

(** The [roomUsers] broadcasts that concern the key [k]. *)
Definition roomUsers_for (k : string) (tr : list Effect)
  : list (option string * option (list RoomUser)) :=
  filter (λ b, String_ b.1 = k) (roomUsers_broadcasts tr).

(** ** The earlier revision kept in [api/index.ts]

    The file holds a second copy of the server in which [joinRoom] and
    [sendMessage] have no side channel: no [socket.data.email], no request
    to the backend, no transcript, and no [try]. *)

(** [socket.on("joinRoom", ({ roomId, username }) => ...)]. *)
Definition joinRoom_v1 (sid : string) (roomId username : option string) : M unit :=
  tell (socket_join sid roomId) >>
  tell (socket_data sid "username" username) >>
  (let* r := rooms_get (String_ roomId) in
   match r with
   | Undefined => write_room (String_ roomId) []
   | Members _ | Inherited => ret tt
   end) >>
  (let* r := rooms_get (String_ roomId) in
   match r with
   | Members l =>
       write_room (String_ roomId)
         (l ++ [{| member_socketId := sid; username := username |}])
   | Inherited | Undefined => throw push_TypeError
   end) >>
  tell (console_log
          ["User " +:+ String_ username +:+ " joined room " +:+ String_ roomId]) >>
  emit_roomUsers roomId.

(** [socket.on("sendMessage", ({ roomId, user, text }) => ...)]. *)
Definition sendMessage_v1 (env : Env) (roomId user text : option string) : M unit :=
  tell (io_to_emit roomId
          (message {| id := randomUUID (entropy env);
                      user := user;
                      text := text;
                      timestamp := Date_timestamp env |})).

(** The socket an event comes from. *)
Definition socket_of (ev : Inbound) : string :=
  match ev with
  | Connection sid | NewUser sid _ | JoinRoom sid _ _ _ _ | LeaveRoom sid _
  | SendMessage sid _ _ _ | Disconnect sid
  | JoinRoom_no_payload sid | SendMessage_no_payload sid => sid
  end.

(** The entries of a socket in [onlineUsers]. *)
Definition registered_as (sid : string) (l : list OnlineUser) : list OnlineUser :=
  filter (λ u, socketId u = sid) l.

(** The event is a [joinRoom] of the socket filed under the key [k]. *)
Definition joins (sid k : string) (ev : Inbound) : Prop :=
  ∃ roomId username email uid,
    ev = JoinRoom sid roomId username email uid ∧ String_ roomId = k.

(** ** The first revision of [newUser]

    The oldest copy of the server, kept beside [api/index.ts], has no room
    table; its [newUser] resolves a user id that another socket holds by
    giving the entries with that user id to the new socket.  The index
    assigned to comes from [findIndex], so it is within the array. *)
Definition newUser_v0 (sid : string) (uid : option string) : M unit :=
  if negb (truthy uid) then ret tt
  else
    let* st := get in
    let existingUserIndex :=
      findIndex (λ user, bool_decide (socketId user = sid)) (onlineUsers st) in
    (if bool_decide (existingUserIndex ≠ (-1)%Z) then
       write_onlineUsers
         (<[Z.to_nat existingUserIndex :=
              {| socketId := sid; userId := String_ uid |}]> (onlineUsers st))
     else if negb (existsb (λ user, bool_decide (userId user = String_ uid))
                     (onlineUsers st)) then
       write_onlineUsers
         (onlineUsers st ++ [{| socketId := sid; userId := String_ uid |}])
     else
       write_onlineUsers
         ((λ user, if bool_decide (userId user = String_ uid)
                   then {| socketId := sid; userId := String_ uid |}
                   else user) <$> onlineUsers st)) >>
    emit_usersOnline.

(** * Properties *)

(** Unfolds the operations of the monad in the goal. *)
Ltac unfold_M :=
  unfold emit_roomUsers, emit_usersOnline, rooms_get, read_room, write_room,
    write_onlineUsers, bind, ret, tell, get, put, throw, try_catch.

(** ** The scenario of the specification, run *)

Example scenario_broadcasts :
  let r := run [ (posix_env, Connection "A");
                 (posix_env, NewUser "A" (Some "u1"));
                 (posix_env, JoinRoom "A" (Some "r1") (Some "Alice") None None);
                 (posix_env, JoinRoom "B" (Some "r1") (Some "Bob") None None);
                 (posix_env, SendMessage "A" (Some "r1") (Some "Alice") (Some "hi"));
                 (posix_env, Disconnect "A") ] initial in
  completion r = Normal tt
  ∧ broadcasts (trace_of r)
    = [ io_emit (usersOnline [{| socketId := "A"; userId := EmptyString |}]);
        io_emit (usersOnline [{| socketId := "A"; userId := "u1" |}]);
        io_to_emit (Some "r1")
          (roomUsers (Some [{| member_socketId := "A"; username := Some "Alice" |}]));
        io_to_emit (Some "r1")
          (roomUsers (Some [{| member_socketId := "A"; username := Some "Alice" |};
                            {| member_socketId := "B"; username := Some "Bob" |}]));
        io_to_emit (Some "r1")
          (message {| id := "d20a3f4e-eee0-43c3-b60f-e98e01000000";
                      user := Some "Alice"; text := Some "hi";
                      timestamp := 1714564800000 |});
        io_to_emit (Some "r1")
          (roomUsers (Some [{| member_socketId := "B"; username := Some "Bob" |}]));
        io_emit (usersOnline []) ]
  ∧ appendFile_calls (trace_of r)
    = [ ("/srv/agoraX_server/../AgoraX_resume/tmp/transcripts/transcript-r1-Alice.txt",
         "[2024-05-01T12:00:00.001Z] (chat) Alice: hi"
         +:+ String "010"%char EmptyString) ].
Proof. repeat split. Qed.

Example sanitize_room : sanitize "team/7 (ops)_x-1" = "team_7__ops__x-1".
Proof. reflexivity. Qed.

Example read_only_disk :
  trace_of (sendMessage failing_env (Some "r1") (Some "Alice") (Some "hi") initial)
  = [ io_to_emit (Some "r1")
        (message {| id := "d20a3f4e-eee0-43c3-b60f-e98e01000000";
                    user := Some "Alice"; text := Some "hi";
                    timestamp := 1714564800000 |});
      fs_mkdirSync "/var/transcripts";
      console_warn ["Failed adding chat to transcripts"; "EROFS"] ].
Proof. reflexivity. Qed.

(** ** [leaveRoom] *)

Lemma usable_key_own m key l : m !! key = Some l → usable_key m key = true.
Proof. unfold usable_key. by intros ->. Qed.

Lemma usable_key_fresh m key : inherited key = false → usable_key m key = true.
Proof. unfold usable_key. intros ->. by destruct (m !! key). Qed.

Lemma usable_key_false m key :
  usable_key m key = false ↔ m !! key = None ∧ inherited key = true.
Proof.
  unfold usable_key. destruct (m !! key); [by split; [|intros []]|].
  destruct (inherited key); by split; [|intros []].
Qed.

Lemma usable_key_true m key :
  usable_key m key = true ↔ is_Some (m !! key) ∨ inherited key = false.
Proof.
  unfold usable_key. destruct (m !! key) as [l|].
  - split; [by left; eexists|done].
  - destruct (inherited key); split; try done; [|by right].
    intros [[? [=]]|[=]].
Qed.

Lemma usable_key_insert m key key' l :
  usable_key m key = true → usable_key (<[key' := l]> m) key = true.
Proof.
  rewrite !usable_key_true. intros [H|H]; [left|by right].
  destruct (decide (key' = key)) as [->|Hne].
  - rewrite lookup_insert_eq. by eexists.
  - by rewrite lookup_insert_ne.
Qed.

Lemma leaveRoom_unknown sid roomId st :
  rooms st !! String_ roomId = None →
  inherited (String_ roomId) = false →
  leaveRoom sid roomId st =
    (Normal tt, st,
     [socket_leave sid roomId; console_log ["User left room " +:+ String_ roomId]]).
Proof. intros H Hi. unfold leaveRoom. unfold_M. by rewrite H, Hi. Qed.

(** For a name inherited from [Object.prototype] the guard passes and the
    call of [filter] throws; nothing catches it. *)
Lemma leaveRoom_inherited sid roomId st :
  usable_key (rooms st) (String_ roomId) = false →
  leaveRoom sid roomId st = (Throw filter_TypeError, st, [socket_leave sid roomId]).
Proof.
  intros [H Hi]%usable_key_false. unfold leaveRoom. unfold_M. by rewrite H, Hi.
Qed.

Lemma leaveRoom_known sid roomId st l :
  rooms st !! String_ roomId = Some l →
  leaveRoom sid roomId st =
    (Normal tt,
     set_rooms (<[String_ roomId := without sid l]> (rooms st)) st,
     [socket_leave sid roomId;
      io_to_emit roomId (roomUsers (Some (without sid l)));
      console_log ["User left room " +:+ String_ roomId]]).
Proof.
  intros H. unfold leaveRoom. unfold_M. rewrite H. simpl.
  by rewrite lookup_insert_eq.
Qed.

(** ** [joinRoom] *)

(** The notification of the backend never fails the handler and emits
    nothing to the sockets; it leaves both tables alone. *)
Lemma notify_backend_contained env roomId username email uid st :
  ∃ tr,
    try_catch (notify_backend env roomId username email uid)
      (λ e, tell (console_warn
                    ["[chat] failed to persist participant to backend"; what_of e])) st
    = (Normal tt, st, tr)
    ∧ broadcasts tr = [].
Proof.
  unfold notify_backend. unfold_M.
  destruct (truthy email); [|by eexists].
  destruct (encodeURIComponent env (String_ roomId)) as [e|room]; [by eexists|].
  simpl. destruct (fetch_rejection env _); by eexists.
Qed.

(** For a name inherited from [Object.prototype] the array is not created
    and the call of [push] throws; the outer [catch] logs the error. *)
Lemma joinRoom_inherited env sid roomId username email uid st :
  usable_key (rooms st) (String_ roomId) = false →
  joinRoom env sid roomId username email uid st =
    (Normal tt, st,
     [socket_join sid roomId;
      socket_data sid "username" username;
      socket_data sid "email" email;
      console_warn ["[chat] joinRoom handler error"; what_of push_TypeError]]).
Proof.
  intros [H Hi]%usable_key_false. unfold joinRoom. unfold_M.
  rewrite H, Hi. simpl. by rewrite H.
Qed.

(** The member list of a room before a join: empty when the key is new. *)
Lemma joinRoom_result env sid roomId username email uid st :
  usable_key (rooms st) (String_ roomId) = true →
  let old := default [] (rooms st !! String_ roomId) in
  let new := old ++ [{| member_socketId := sid; username := username |}] in
  ∃ tr,
    joinRoom env sid roomId username email uid st =
      (Normal tt,
       set_rooms (<[String_ roomId := new]> (rooms st)) st,
       [socket_join sid roomId;
        socket_data sid "username" username;
        socket_data sid "email" email;
        console_log
          ["User " +:+ String_ username +:+ " joined room " +:+ String_ roomId];
        io_to_emit roomId (roomUsers (Some new))] ++ tr)
    ∧ broadcasts tr = [].
Proof.
  intros Hu old new. subst old new.
  unfold joinRoom.
  remember (try_catch (notify_backend _ _ _ _ _) _) as notify eqn:Hnotify.
  unfold_M. unfold usable_key in Hu.
  destruct (rooms st !! String_ roomId) as [l|] eqn:Hl; simpl.
  - rewrite Hl. simpl. rewrite lookup_insert_eq.
    destruct (notify_backend_contained env roomId username email uid
                (set_rooms
                   (<[String_ roomId :=
                        l ++ [{| member_socketId := sid; username := username |}]]>
                      (rooms st)) st)) as (tr & Hn & Hb).
    rewrite <- Hnotify in Hn. rewrite Hn. by exists tr.
  - apply negb_true_iff in Hu. rewrite Hu. simpl.
    rewrite lookup_insert_eq. simpl. rewrite lookup_insert_eq.
    rewrite insert_insert_eq.
    destruct (notify_backend_contained env roomId username email uid
                (set_rooms
                   (<[String_ roomId :=
                        [{| member_socketId := sid; username := username |}]]>
                      (rooms st)) st)) as (tr & Hn & Hb).
    rewrite <- Hnotify in Hn. unfold set_rooms in *. simpl in *. rewrite Hn.
    by exists tr.
Qed.

(** ** Member lists *)

Lemma entries_without sid l : entries_of sid (without sid l) = [].
Proof.
  unfold entries_of, without. induction l as [|u l IH]; [done|].
  rewrite (filter_cons _ u l). case_decide as Hu; [|done].
  rewrite filter_cons. by case_decide.
Qed.

Lemma without_non_member sid l : entries_of sid l = [] → without sid l = l.
Proof.
  unfold entries_of, without. induction l as [|u l IH]; [done|].
  rewrite !filter_cons. intros H.
  destruct (decide (member_socketId u = sid)) as [Heq|Hne]; [done|].
  destruct (decide (member_socketId u ≠ sid)); [|done]. by rewrite IH.
Qed.

Lemma entries_of_app sid l1 l2 :
  entries_of sid (l1 ++ l2) = entries_of sid l1 ++ entries_of sid l2.
Proof. apply filter_app. Qed.

Lemma entries_of_nil_iff sid l : entries_of sid l = [] ↔ ¬ member_of sid l.
Proof.
  unfold entries_of, member_of. induction l as [|u l IH]; simpl.
  - split; [intros _; apply not_elem_of_nil|done].
  - rewrite filter_cons, not_elem_of_cons. case_decide as Hu.
    + split; [done|]. intros [Hne _]. by destruct Hne.
    + rewrite IH. split; [|by intros [_ ?]]. intros H. split; [|done].
      intros Heq. by apply Hu.
Qed.

Lemma set_rooms_id st : set_rooms (rooms st) st = st.
Proof. by destruct st. Qed.

Lemma broadcasts_app tr1 tr2 : broadcasts (tr1 ++ tr2) = broadcasts tr1 ++ broadcasts tr2.
Proof. apply filter_app. Qed.

Lemma broadcasts_cons e tr :
  is_broadcast e = true → broadcasts (e :: tr) = e :: broadcasts tr.
Proof. intros H. unfold broadcasts. by rewrite filter_cons_True. Qed.

Lemma roomUsers_broadcasts_app tr1 tr2 :
  roomUsers_broadcasts (tr1 ++ tr2)
  = roomUsers_broadcasts tr1 ++ roomUsers_broadcasts tr2.
Proof. apply omap_app. Qed.

Lemma roomUsers_broadcasts_skip e tr :
  roomUsers_of e = None → roomUsers_broadcasts (e :: tr) = roomUsers_broadcasts tr.
Proof. unfold roomUsers_broadcasts. simpl. by intros ->. Qed.

Lemma broadcasts_nil_roomUsers tr :
  broadcasts tr = [] → roomUsers_broadcasts tr = [].
Proof.
  unfold broadcasts, roomUsers_broadcasts. induction tr as [|e tr IH]; [done|].
  rewrite filter_cons. destruct e as [| | | | |ev|room ev| | |]; simpl;
    try (case_decide; [done|]); try done; apply IH.
Qed.

(** ** Joining with a missing or empty field *)

(** C1, as stated, fails: a [joinRoom] event without a username (and one
    without a room id) changes the room table and is followed by a
    [roomUsers] broadcast. *)
Lemma joinRoom_missing_field_counterexample :
  let r1 := joinRoom posix_env "A" (Some "r1") None None None initial in
  let r2 := joinRoom posix_env "A" None (Some "Alice") None None initial in
  truthy None = false
  ∧ rooms (state_of r1) ≠ rooms initial
  ∧ roomUsers_broadcasts (trace_of r1)
    = [(Some "r1", Some [{| member_socketId := "A"; username := None |}])]
  ∧ rooms (state_of r2) ≠ rooms initial
  ∧ roomUsers_broadcasts (trace_of r2)
    = [(None, Some [{| member_socketId := "A"; username := Some "Alice" |}])].
Proof.
  repeat split; try reflexivity.
  - intros H. apply (f_equal (λ m, m !! "r1")) in H. vm_compute in H. discriminate.
  - intros H. apply (f_equal (λ m, m !! "undefined")) in H. vm_compute in H.
    discriminate.
Qed.

(** C1, amended: the handler has no guard on the fields of its payload.  A
    [joinRoom] event whose payload is an object in which [roomId] or
    [username] is missing or empty is processed like any other.  When the key
    [String(roomId)] is one under which [rooms] can hold a member list (it is
    a key of the table already, or it is not a name inherited from
    [Object.prototype]; a missing or empty [roomId] is such a key), the
    handler completes without throwing, stores under that key the former
    member list followed by the entry [{socketId, username}], leaves
    [onlineUsers] alone, and emits exactly one [roomUsers] broadcast, to
    [roomId], carrying that list. *)
Theorem joinRoom_missing_field_still_joins env sid roomId username email uid st :
  truthy roomId = false ∨ truthy username = false →
  usable_key (rooms st) (String_ roomId) = true →
  let r := joinRoom env sid roomId username email uid st in
  let new := default [] (rooms st !! String_ roomId)
             ++ [{| member_socketId := sid; username := username |}] in
  completion r = Normal tt
  ∧ rooms (state_of r) = <[String_ roomId := new]> (rooms st)
  ∧ onlineUsers (state_of r) = onlineUsers st
  ∧ roomUsers_broadcasts (trace_of r) = [(roomId, Some new)].
Proof.
  intros _ Hu r new. subst r new.
  destruct (joinRoom_result env sid roomId username email uid st Hu)
    as (tr & -> & Hb).
  repeat split. unfold trace_of. simpl.
  by rewrite (broadcasts_nil_roomUsers _ Hb).
Qed.

Lemma joinRoom_missing_field_still_joins_witness :
  let r := joinRoom failing_env "A" None None (Some "a@x.org") None initial in
  completion r = Normal tt
  ∧ rooms (state_of r)
    = <[String_ None := [{| member_socketId := "A"; username := None |}]]> ∅
  ∧ onlineUsers (state_of r) = []
  ∧ roomUsers_broadcasts (trace_of r)
    = [(None, Some [{| member_socketId := "A"; username := None |}])].
Proof.
  apply (joinRoom_missing_field_still_joins failing_env "A" None None
           (Some "a@x.org") None initial).
  - left. reflexivity.
  - reflexivity.
Defined.

(** ** Leaving an unknown room *)

(** C2, as stated, fails: leaving a room that is not a key of [rooms] sends
    no [roomUsers] broadcast at all, so none with an empty list. *)
Lemma leaveRoom_unknown_counterexample :
  let r := leaveRoom "A" (Some "lobby") initial in
  rooms initial !! "lobby" = None
  ∧ roomUsers_broadcasts (trace_of r) = []
  ∧ (Some "lobby", Some []) ∉ roomUsers_broadcasts (trace_of r).
Proof.
  repeat split. simpl. apply not_elem_of_nil.
Qed.

(** C2, amended: the handler guards the update with [if (rooms[roomId])].  For
    a [leaveRoom] event whose room is not a key of [rooms], and is not a name
    inherited from [Object.prototype] either, the guard fails and the handler
    only unsubscribes the socket and logs: it completes without throwing,
    both tables keep their value, no key is created, and no broadcast of any
    kind is sent. *)
Theorem leaveRoom_unknown_room_silent sid roomId st :
  rooms st !! String_ roomId = None →
  inherited (String_ roomId) = false →
  let r := leaveRoom sid roomId st in
  completion r = Normal tt
  ∧ state_of r = st
  ∧ broadcasts (trace_of r) = []
  ∧ trace_of r
    = [socket_leave sid roomId; console_log ["User left room " +:+ String_ roomId]].
Proof.
  intros H Hi r. subst r. by rewrite (leaveRoom_unknown _ _ _ H Hi).
Qed.

Lemma leaveRoom_unknown_room_silent_witness :
  let r := leaveRoom "A" (Some "lobby") initial in
  completion r = Normal tt
  ∧ state_of r = initial
  ∧ broadcasts (trace_of r) = []
  ∧ trace_of r
    = [socket_leave "A" (Some "lobby"); console_log ["User left room lobby"]].
Proof.
  apply (leaveRoom_unknown_room_silent "A" (Some "lobby") initial); reflexivity.
Defined.

(** ** Join, then leave *)

Lemma leaveRoom_absent sid roomId st :
  rooms st !! String_ roomId = None →
  state_of (leaveRoom sid roomId st) = st.
Proof.
  intros Hl. destruct (inherited (String_ roomId)) eqn:Hi.
  - rewrite leaveRoom_inherited; [done|]. by apply usable_key_false.
  - by rewrite (leaveRoom_unknown _ _ _ Hl Hi).
Qed.

Lemma leaveRoom_non_member sid roomId st :
  (∀ l, rooms st !! String_ roomId = Some l → entries_of sid l = []) →
  state_of (leaveRoom sid roomId st) = st.
Proof.
  intros H. destruct (rooms st !! String_ roomId) as [l|] eqn:Hl.
  - rewrite (leaveRoom_known _ _ _ _ Hl). unfold state_of. simpl.
    rewrite (without_non_member _ _ (H l eq_refl)).
    rewrite (insert_id _ _ _ Hl). apply set_rooms_id.
  - by apply leaveRoom_absent.
Qed.

(** What [joinRoom] then [leaveRoom] by one connection for one room leave
    in the table. *)
Lemma join_leave_usable env sid roomId username email uid st :
  usable_key (rooms st) (String_ roomId) = true →
  let st1 := state_of (joinRoom env sid roomId username email uid st) in
  let r2 := leaveRoom sid roomId st1 in
  completion r2 = Normal tt
  ∧ rooms (state_of r2) !! String_ roomId
    = Some (without sid (default [] (rooms st !! String_ roomId))).
Proof.
  intros Hu st1 r2. subst st1 r2.
  destruct (joinRoom_result env sid roomId username email uid st Hu)
    as (tr & -> & _).
  cbn [state_of fst snd].
  set (old := default [] (rooms st !! String_ roomId)).
  set (entry := {| member_socketId := sid; username := username |}).
  set (st1 := set_rooms _ st).
  assert (rooms st1 !! String_ roomId = Some (old ++ [entry])) as H1
    by apply lookup_insert_eq.
  rewrite (leaveRoom_known _ _ _ _ H1). cbn [completion state_of fst snd].
  assert (without sid (old ++ [entry]) = without sid old) as ->.
  { unfold without. rewrite filter_app, filter_cons. simpl.
    case_decide; [done|]. by rewrite filter_nil, app_nil_r. }
  split; [done|]. apply lookup_insert_eq.
Qed.

Lemma join_leave_inherited env sid roomId username email uid st :
  usable_key (rooms st) (String_ roomId) = false →
  let st1 := state_of (joinRoom env sid roomId username email uid st) in
  let r2 := leaveRoom sid roomId st1 in
  st1 = st ∧ completion r2 = Throw filter_TypeError ∧ state_of r2 = st.
Proof.
  intros Hu st1 r2. subst st1 r2.
  rewrite (joinRoom_inherited _ _ _ _ _ _ _ Hu). cbn [state_of fst snd].
  by rewrite (leaveRoom_inherited _ _ _ Hu).
Qed.

(** C6: after [joinRoom] then [leaveRoom] by the same connection for the same
    room, the table holds no entry of the connection under the key of the
    room; a second [leaveRoom] leaves both tables as they are, and so does
    any [leaveRoom] by a connection that has no entry in the room (known or
    not).  When the key can hold a member list (it is a key of the table
    already, or it is not a name inherited from [Object.prototype]), the
    list is there after the two events, it is the former list without the
    entries of the connection, and both [leaveRoom] complete without
    throwing.  For the other keys the join stores nothing and the leave is
    ended by a [TypeError], the tables as they were. *)
Theorem join_then_leave env sid roomId username email uid st :
  let key := String_ roomId in
  let st1 := state_of (joinRoom env sid roomId username email uid st) in
  let r2 := leaveRoom sid roomId st1 in
  let st2 := state_of r2 in
  entries_of sid (default [] (rooms st2 !! key)) = []
  ∧ onlineUsers st2 = onlineUsers st
  ∧ state_of (leaveRoom sid roomId st2) = st2
  ∧ (∀ sid' roomId' st',
       (∀ l, rooms st' !! String_ roomId' = Some l → ¬ member_of sid' l) →
       state_of (leaveRoom sid' roomId' st') = st')
  ∧ (usable_key (rooms st) key = true →
       completion r2 = Normal tt
       ∧ completion (leaveRoom sid roomId st2) = Normal tt
       ∧ ∃ l, rooms st2 !! key = Some l
              ∧ entries_of sid l = []
              ∧ ¬ member_of sid l
              ∧ l = without sid (default [] (rooms st !! key)))
  ∧ (usable_key (rooms st) key = false →
       st1 = st ∧ st2 = st ∧ rooms st !! key = None
       ∧ completion r2 = Throw filter_TypeError).
Proof.
  intros key st1 r2 st2.
  assert (∀ sid' roomId' st',
            (∀ l, rooms st' !! String_ roomId' = Some l → ¬ member_of sid' l) →
            state_of (leaveRoom sid' roomId' st') = st') as Hnon.
  { intros sid' roomId' st' H. apply leaveRoom_non_member.
    intros l Hl. apply entries_of_nil_iff. by apply H. }
  assert (entries_of sid (default [] (rooms st2 !! key)) = []) as Hnone.
  { destruct (usable_key (rooms st) key) eqn:Hu.
    - destruct (join_leave_usable env sid roomId username email uid st Hu)
        as [_ H2].
      subst st2 r2 st1 key. rewrite H2. apply entries_without.
    - destruct (join_leave_inherited env sid roomId username email uid st Hu)
        as (_ & _ & H2).
      apply usable_key_false in Hu as [Hl _].
      subst st2 r2 st1 key. by rewrite H2, Hl. }
  split; [done|]. split; [|split; [|split; [done|split]]].
  - destruct (usable_key (rooms st) key) eqn:Hu.
    + subst st2 r2 st1 key.
      destruct (joinRoom_result env sid roomId username email uid st Hu)
        as (tr & -> & _).
      cbn [state_of fst snd].
      erewrite leaveRoom_known; [done|]. apply lookup_insert_eq.
    + destruct (join_leave_inherited env sid roomId username email uid st Hu)
        as (_ & _ & H2).
      subst st2 r2 st1 key. by rewrite H2.
  - apply Hnon. intros l Hl. apply entries_of_nil_iff.
    subst key. rewrite Hl in Hnone. exact Hnone.
  - intros Hu.
    destruct (join_leave_usable env sid roomId username email uid st Hu)
      as [Hc H2].
    fold st1 r2 st2 key in Hc, H2. split; [done|]. split.
    + rewrite (leaveRoom_known _ _ _ _ H2). done.
    + eexists. split; [exact H2|].
      split; [apply entries_without|].
      split; [|done]. apply entries_of_nil_iff, entries_without.
  - intros Hu.
    destruct (join_leave_inherited env sid roomId username email uid st Hu)
      as (H1 & Hc & H2).
    apply usable_key_false in Hu as [Hl _]. by subst key.
Qed.

(** ** Repeated joins *)

Lemma run_cons env ev evs st :
  run ((env, ev) :: evs) st = (handle env ev >> run evs) st.
Proof. reflexivity. Qed.

Lemma run_joins envs sid roomId username email uid st :
  usable_key (rooms st) (String_ roomId) = true →
  let entry := {| member_socketId := sid; username := username |} in
  let r := run (map (λ env, (env, JoinRoom sid roomId username email uid)) envs) st in
  completion r = Normal tt
  ∧ default [] (rooms (state_of r) !! String_ roomId)
    = default [] (rooms st !! String_ roomId) ++ replicate (length envs) entry.
Proof.
  intros Hu entry. revert st Hu.
  induction envs as [|env envs IH]; intros st Hu r; subst r.
  - simpl. by rewrite app_nil_r.
  - rewrite map_cons, run_cons. unfold bind. simpl handle.
    destruct (joinRoom_result env sid roomId username email uid st Hu)
      as (tr & -> & _).
    destruct (IH (set_rooms
                    (<[String_ roomId :=
                         default [] (rooms st !! String_ roomId) ++ [entry]]>
                       (rooms st)) st)) as [Hc Hr].
    { by apply usable_key_insert. }
    destruct (run _ _) as [[c st2] tr2]. unfold completion, state_of in *.
    simpl in *. split; [done|]. rewrite Hr, lookup_insert_eq. simpl.
    by rewrite <- app_assoc.
Qed.

(** C7, at a room id the code mishandles.  The claim holds of every room id
    under which [rooms] can hold a member list, [joinRoom_appends] below.  The
    table is a plain object, though, and for a room id that names a property
    inherited from [Object.prototype] the test [!rooms[roomId]] finds the
    inherited value: no array is created, [push] is not a method of that
    value, and the [TypeError] is logged by the outer [catch].  On a fresh
    server a join of the room [constructor] appends nothing and broadcasts
    nothing. *)
Theorem joinRoom_inherited_name_not_appended :
  let r := joinRoom posix_env "A" (Some "constructor") (Some "Alice") None None
             initial in
  completion r = Normal tt
  ∧ state_of r = initial
  ∧ rooms (state_of r) !! "constructor" = None
  ∧ broadcasts (trace_of r) = []
  ∧ trace_of r
    = [ socket_join "A" (Some "constructor");
        socket_data "A" "username" (Some "Alice");
        socket_data "A" "email" None;
        console_warn ["[chat] joinRoom handler error";
                      "TypeError: rooms[roomId].push is not a function"] ].
Proof. repeat split. Qed.

(** X27: for a room id under which [rooms] can hold a member list (it is a
    key of the table already, or it is not a name inherited from
    [Object.prototype]), [joinRoom] puts the new entry [{socketId, username}]
    at the end of the member list of the room, whatever the list already
    holds; the former entries keep their place, other rooms and
    [onlineUsers] are untouched; the only broadcast of the handler is
    [roomUsers] to [roomId], and its payload is the list found under the key
    after the append.  After [n] joins by one connection the list is the
    former one followed by [n] copies of the entry, so the connection has [n]
    more entries. *)
Theorem joinRoom_appends env sid roomId username email uid st envs :
  usable_key (rooms st) (String_ roomId) = true →
  let key := String_ roomId in
  let old := default [] (rooms st !! key) in
  let entry := {| member_socketId := sid; username := username |} in
  let r := joinRoom env sid roomId username email uid st in
  let rn := run (map (λ env, (env, JoinRoom sid roomId username email uid)) envs) st in
  rooms (state_of r) = <[key := old ++ [entry]]> (rooms st)
  ∧ onlineUsers (state_of r) = onlineUsers st
  ∧ broadcasts (trace_of r)
    = [io_to_emit roomId (roomUsers (rooms (state_of r) !! key))]
  ∧ completion rn = Normal tt
  ∧ default [] (rooms (state_of rn) !! key) = old ++ replicate (length envs) entry
  ∧ length (entries_of sid (default [] (rooms (state_of rn) !! key)))
    = (length (entries_of sid old) + length envs)%nat.
Proof.
  intros Hu key old entry r rn. subst key old r rn.
  destruct (run_joins envs sid roomId username email uid st Hu) as [Hc Hr].
  destruct (joinRoom_result env sid roomId username email uid st Hu)
    as (tr & -> & Hb).
  unfold state_of at 1 2 3, trace_of. simpl.
  split; [done|]. split; [done|]. split.
  { rewrite lookup_insert_eq.
    change (?a :: ?b :: ?c :: ?d :: ?e :: tr) with ([a; b; c; d; e] ++ tr).
    by rewrite broadcasts_app, Hb. }
  split; [done|]. split; [done|].
  rewrite Hr, entries_of_app, length_app. f_equal.
  unfold entries_of. clear. induction (length envs) as [|n IH]; [done|].
  simpl. rewrite filter_cons. simpl. case_decide; [|done]. simpl. by rewrite IH.
Qed.

Lemma joinRoom_appends_witness :
  let key := String_ (Some "r1") in
  let old := default [] (rooms initial !! key) in
  let entry := {| member_socketId := "A"; username := Some "Alice" |} in
  let r := joinRoom posix_env "A" (Some "r1") (Some "Alice") None None initial in
  let rn := run (map (λ env, (env, JoinRoom "A" (Some "r1") (Some "Alice") None None))
                   [posix_env; failing_env]) initial in
  rooms (state_of r) = <[key := old ++ [entry]]> (rooms initial)
  ∧ onlineUsers (state_of r) = onlineUsers initial
  ∧ broadcasts (trace_of r)
    = [io_to_emit (Some "r1") (roomUsers (rooms (state_of r) !! key))]
  ∧ completion rn = Normal tt
  ∧ default [] (rooms (state_of rn) !! key) = old ++ replicate 2 entry
  ∧ length (entries_of "A" (default [] (rooms (state_of rn) !! key)))
    = (length (entries_of "A" old) + 2)%nat.
Proof.
  apply (joinRoom_appends posix_env "A" (Some "r1") (Some "Alice") None None
           initial [posix_env; failing_env]).
  reflexivity.
Defined.

(** ** [disconnect] *)

Lemma purge_room_known sid roomId st l :
  rooms st !! roomId = Some l →
  purge_room sid roomId st =
    (Normal tt, set_rooms (<[roomId := without sid l]> (rooms st)) st,
     [purge_broadcast sid (roomId, l)]).
Proof.
  intros H. unfold purge_room. unfold_M. rewrite H. simpl.
  by rewrite lookup_insert_eq.
Qed.

(** The loop over the keys: every list is filtered once, and one broadcast
    per key carries the filtered list. *)
Lemma purge_loop sid (kvs : list (string * list RoomUser)) st :
  NoDup kvs.*1 →
  (∀ k l, (k, l) ∈ kvs → rooms st !! k = Some l) →
  ∃ m',
    for_each kvs.*1 (purge_room sid) st
    = (Normal tt, set_rooms m' st, purge_broadcast sid <$> kvs)
    ∧ ∀ k, m' !! k = if decide (k ∈ kvs.*1) then without sid <$> rooms st !! k
                     else rooms st !! k.
Proof.
  revert st. induction kvs as [|[k0 l0] kvs IH]; intros st Hnd Hin.
  - exists (rooms st). simpl. by rewrite set_rooms_id.
  - rewrite fmap_cons in Hnd. apply NoDup_cons in Hnd as [Hk0 Hnd].
    assert (rooms st !! k0 = Some l0) as H0 by (apply Hin; left).
    set (st1 := set_rooms (<[k0 := without sid l0]> (rooms st)) st).
    destruct (IH st1 Hnd) as (m' & Hrun & Hm').
    { intros k l Hkl. simpl. rewrite lookup_insert_ne; [apply Hin; by right|].
      intros Heq. apply Hk0, list_elem_of_fmap. exists (k, l).
      split; [by rewrite Heq|exact Hkl]. }
    exists m'. split.
    + rewrite fmap_cons. simpl for_each. unfold bind.
      rewrite (purge_room_known _ _ _ _ H0). fold st1. by rewrite Hrun.
    + intros k. rewrite Hm'. rewrite fmap_cons. cbn [fst rooms st1 set_rooms].
      cbn [fst] in Hk0.
      destruct (decide (k = k0)) as [->|Hne].
      * rewrite lookup_insert_eq, H0.
        rewrite (decide_False (P := k0 ∈ kvs.*1)) by done.
        rewrite (decide_True (P := k0 ∈ k0 :: kvs.*1)) by left. done.
      * rewrite lookup_insert_ne by done.
        destruct (decide (k ∈ kvs.*1)) as [Hk|Hk].
        -- rewrite (decide_True (P := k ∈ k0 :: kvs.*1)) by (by right). done.
        -- rewrite (decide_False (P := k ∈ k0 :: kvs.*1)); [done|].
           intros [?|?]%elem_of_cons; done.
Qed.

Lemma disconnect_result sid st :
  disconnect sid st =
    (Normal tt,
     {| onlineUsers := filter (λ u, socketId u ≠ sid) (onlineUsers st);
        rooms := without sid <$> rooms st |},
     console_log ["User disconnected:"; sid]
     :: (purge_broadcast sid <$> map_to_list (rooms st))
     ++ [io_emit (usersOnline (filter (λ u, socketId u ≠ sid) (onlineUsers st)))]).
Proof.
  destruct (purge_loop sid (map_to_list (rooms st)) st) as (m' & Hrun & Hm').
  { apply NoDup_fst_map_to_list. }
  { intros k l. apply elem_of_map_to_list. }
  assert (m' = without sid <$> rooms st) as ->.
  { apply map_eq. intros k. rewrite Hm', lookup_fmap.
    case_decide as Hk; [done|].
    destruct (rooms st !! k) as [l|] eqn:Hl; [|done].
    destruct Hk. apply list_elem_of_fmap. exists (k, l).
    split; [done|]. by apply elem_of_map_to_list. }
  unfold disconnect, room_keys.
  unfold bind at 1. unfold tell at 1. unfold bind at 1. unfold bind at 1.
  unfold get at 1. rewrite Hrun. by unfold_M.
Qed.

Lemma roomUsers_broadcasts_purge sid (kvs : list (string * list RoomUser)) :
  roomUsers_broadcasts (purge_broadcast sid <$> kvs)
  = (λ kl, (Some kl.1, Some (without sid kl.2))) <$> kvs.
Proof.
  unfold roomUsers_broadcasts. induction kvs as [|kl kvs IH]; [done|].
  rewrite !fmap_cons. simpl. f_equal. apply IH.
Qed.

Lemma roomUsers_broadcasts_disconnect sid st :
  roomUsers_broadcasts (trace_of (disconnect sid st))
  = (λ kl, (Some kl.1, Some (without sid kl.2))) <$> map_to_list (rooms st).
Proof.
  rewrite disconnect_result. cbn [trace_of snd].
  rewrite roomUsers_broadcasts_skip by done.
  rewrite roomUsers_broadcasts_app, roomUsers_broadcasts_purge.
  apply app_nil_r.
Qed.

(** Among the broadcasts of a loop over distinct keys, one targets [k]. *)
Lemma one_broadcast_per_key sid (kvs : list (string * list RoomUser)) k l :
  NoDup kvs.*1 →
  (k, l) ∈ kvs →
  filter (λ b : option string * option (list RoomUser), b.1 = Some k)
    ((λ kl, (Some kl.1, Some (without sid kl.2))) <$> kvs)
  = [(Some k, Some (without sid l))].
Proof.
  assert (∀ kvs' : list (string * list RoomUser), k ∉ kvs'.*1 →
            filter (λ b : option string * option (list RoomUser), b.1 = Some k)
              ((λ kl, (Some kl.1, Some (without sid kl.2))) <$> kvs') = [])
    as Hnone.
  { induction kvs' as [|[k1 l1] kvs' IH]; [done|].
    rewrite !fmap_cons, not_elem_of_cons. intros [Hne Hk].
    rewrite filter_cons. simpl. case_decide as Heq; [|by apply IH].
    by injection Heq as ->. }
  induction kvs as [|[k0 l0] kvs IH]; intros Hnd Hin.
  - by apply not_elem_of_nil in Hin.
  - rewrite fmap_cons in Hnd. apply NoDup_cons in Hnd as [Hk0 Hnd]. simpl in Hk0.
    rewrite fmap_cons, filter_cons. simpl.
    apply elem_of_cons in Hin as [Heq|Hin].
    + injection Heq as <- <-. case_decide; [|done]. by rewrite Hnone.
    + case_decide as Heq; [|by apply IH].
      injection Heq as ->. destruct Hk0. apply list_elem_of_fmap.
      by exists (k, l).
Qed.

Lemma disconnect_one_broadcast sid st k l :
  rooms st !! k = Some l →
  filter (λ b : option string * option (list RoomUser), b.1 = Some k)
    (roomUsers_broadcasts (trace_of (disconnect sid st)))
  = [(Some k, Some (without sid l))].
Proof.
  intros H. rewrite roomUsers_broadcasts_disconnect.
  apply one_broadcast_per_key; [apply NoDup_fst_map_to_list|].
  by apply elem_of_map_to_list.
Qed.

(** C4: when the connection has entries in rooms [A] and [B] and in no other
    room, [disconnect] removes them from both lists (no room lists the
    connection afterwards), leaves every other room's list as it was, and
    the trace holds exactly one [roomUsers] broadcast to [A] and exactly one
    to [B], each carrying the updated list. *)
Theorem disconnect_member_of_two_rooms sid A B lA lB st :
  rooms st !! A = Some lA →
  rooms st !! B = Some lB →
  member_of sid lA →
  member_of sid lB →
  map_Forall (λ k l, member_of sid l → k = A ∨ k = B) (rooms st) →
  let r := disconnect sid st in
  completion r = Normal tt
  ∧ rooms (state_of r) !! A = Some (without sid lA)
  ∧ rooms (state_of r) !! B = Some (without sid lB)
  ∧ map_Forall (λ _ l, ¬ member_of sid l) (rooms (state_of r))
  ∧ (∀ k, k ≠ A → k ≠ B → rooms (state_of r) !! k = rooms st !! k)
  ∧ filter (λ b, b.1 = Some A) (roomUsers_broadcasts (trace_of r))
    = [(Some A, Some (without sid lA))]
  ∧ filter (λ b, b.1 = Some B) (roomUsers_broadcasts (trace_of r))
    = [(Some B, Some (without sid lB))].
Proof.
  intros HA HB _ _ Hex r. subst r.
  split; [by rewrite disconnect_result|].
  split; [by rewrite disconnect_result; simpl; rewrite lookup_fmap, HA|].
  split; [by rewrite disconnect_result; simpl; rewrite lookup_fmap, HB|].
  split.
  { rewrite disconnect_result. simpl. intros k l. rewrite lookup_fmap.
    destruct (rooms st !! k) as [l0|]; [|done]. intros [= <-].
    apply entries_of_nil_iff, entries_without. }
  split.
  { intros k HkA HkB. rewrite disconnect_result. simpl. rewrite lookup_fmap.
    destruct (rooms st !! k) as [l|] eqn:Hl; [|done]. simpl. f_equal.
    apply without_non_member, entries_of_nil_iff. intros Hm.
    destruct (Hex k l Hl Hm); done. }
  split; by apply disconnect_one_broadcast.
Qed.

Lemma disconnect_member_of_two_rooms_witness :
  let r := disconnect "s1" busy_state in
  completion r = Normal tt
  ∧ rooms (state_of r) !! "standup"
    = Some [ {| member_socketId := "s2"; username := Some "Bob" |} ]
  ∧ rooms (state_of r) !! "retro" = Some []
  ∧ map_Forall (λ _ l, ¬ member_of "s1" l) (rooms (state_of r))
  ∧ (∀ k, k ≠ "standup" → k ≠ "retro" →
          rooms (state_of r) !! k = rooms busy_state !! k)
  ∧ filter (λ b, b.1 = Some "standup") (roomUsers_broadcasts (trace_of r))
    = [(Some "standup",
        Some [ {| member_socketId := "s2"; username := Some "Bob" |} ])]
  ∧ filter (λ b, b.1 = Some "retro") (roomUsers_broadcasts (trace_of r))
    = [(Some "retro", Some [])].
Proof.
  apply (disconnect_member_of_two_rooms "s1" "standup" "retro"
           [ {| member_socketId := "s1"; username := Some "Alice" |};
             {| member_socketId := "s2"; username := Some "Bob" |} ]
           [ {| member_socketId := "s1"; username := Some "Alice" |} ]
           busy_state).
  - reflexivity.
  - reflexivity.
  - unfold member_of. compute_done.
  - unfold member_of. compute_done.
  - unfold member_of. compute_done.
Defined.

(** C10: [disconnect] loops over every key of [rooms].  Whatever the room,
    also one in which the connection has no entry or whose list is empty,
    the trace holds exactly one [roomUsers] broadcast to it, carrying its
    list without the entries of the connection (the list itself when the
    connection was not in it), and there are as many [roomUsers] broadcasts
    as there are keys. *)
Theorem disconnect_broadcasts_every_room sid st k l :
  rooms st !! k = Some l →
  let r := disconnect sid st in
  filter (λ b, b.1 = Some k) (roomUsers_broadcasts (trace_of r))
  = [(Some k, Some (without sid l))]
  ∧ (¬ member_of sid l → (Some k, Some l) ∈ roomUsers_broadcasts (trace_of r))
  ∧ (l = [] → (Some k, Some []) ∈ roomUsers_broadcasts (trace_of r))
  ∧ length (roomUsers_broadcasts (trace_of r)) = size (rooms st)
  ∧ (∀ b, b ∈ roomUsers_broadcasts (trace_of r) →
          ∃ k' l', rooms st !! k' = Some l' ∧ b = (Some k', Some (without sid l'))).
Proof.
  intros Hk r. subst r.
  assert ((Some k, Some (without sid l))
          ∈ roomUsers_broadcasts (trace_of (disconnect sid st))) as Hin.
  { rewrite roomUsers_broadcasts_disconnect. apply list_elem_of_fmap.
    exists (k, l). split; [done|]. by apply elem_of_map_to_list. }
  split; [by apply disconnect_one_broadcast|].
  split.
  { intros Hm. apply entries_of_nil_iff, without_non_member in Hm.
    by rewrite Hm in Hin. }
  split; [by intros ->|].
  split.
  { rewrite roomUsers_broadcasts_disconnect, length_fmap.
    apply length_map_to_list. }
  intros b. rewrite roomUsers_broadcasts_disconnect.
  intros ([k' l'] & -> & Hkl)%list_elem_of_fmap.
  exists k', l'. split; [|done]. by apply elem_of_map_to_list.
Qed.

Lemma disconnect_broadcasts_every_room_witness :
  let r := disconnect "s1" busy_state in
  filter (λ b, b.1 = Some "design") (roomUsers_broadcasts (trace_of r))
  = [(Some "design",
      Some (without "s1" [ {| member_socketId := "s2"; username := Some "Bob" |} ]))]
  ∧ (¬ member_of "s1" [ {| member_socketId := "s2"; username := Some "Bob" |} ] →
     (Some "design", Some [ {| member_socketId := "s2"; username := Some "Bob" |} ])
     ∈ roomUsers_broadcasts (trace_of r))
  ∧ ([ {| member_socketId := "s2"; username := Some "Bob" |} ] = [] →
     (Some "design", Some []) ∈ roomUsers_broadcasts (trace_of r))
  ∧ length (roomUsers_broadcasts (trace_of r)) = size (rooms busy_state)
  ∧ (∀ b, b ∈ roomUsers_broadcasts (trace_of r) →
          ∃ k' l', rooms busy_state !! k' = Some l'
                   ∧ b = (Some k', Some (without "s1" l'))).
Proof.
  apply (disconnect_broadcasts_every_room "s1" busy_state "design"
           [ {| member_socketId := "s2"; username := Some "Bob" |} ]).
  reflexivity.
Defined.

(** ** [newUser] *)

Lemma findIndex_from_none {A} (p : A → bool) l i :
  (∀ x, x ∈ l → p x = false) → findIndex_from p l i = (-1)%Z.
Proof.
  revert i. induction l as [|x l IH]; intros i H; [done|]. simpl.
  rewrite (H x) by left. apply IH. intros y Hy. apply H. by right.
Qed.

Lemma findIndex_from_first {A} (p : A → bool) l1 x l2 i :
  (∀ y, y ∈ l1 → p y = false) →
  p x = true →
  findIndex_from p (l1 ++ x :: l2) i = (i + Z.of_nat (length l1))%Z.
Proof.
  revert i. induction l1 as [|y l1 IH]; intros i H Hx; simpl.
  - rewrite Hx. lia.
  - rewrite (H y) by left. rewrite IH; [lia| |done].
    intros z Hz. apply H. by right.
Qed.

(** A list either has no element satisfying [p] or splits at the first. *)
Lemma first_split {A} (p : A → bool) (l : list A) :
  (∀ x, x ∈ l → p x = false)
  ∨ ∃ l1 x l2, l = l1 ++ x :: l2 ∧ (∀ y, y ∈ l1 → p y = false) ∧ p x = true.
Proof.
  induction l as [|x l IH].
  - left. intros x Hx. by apply not_elem_of_nil in Hx.
  - destruct (p x) eqn:Hx.
    + right. exists [], x, l. split; [done|]. split; [|done].
      intros y Hy. by apply not_elem_of_nil in Hy.
    + destruct IH as [Hnone|(l1 & y & l2 & -> & Hl1 & Hy)].
      * left. intros y [->|Hy]%elem_of_cons; [done|by apply Hnone].
      * right. exists (x :: l1), y, l2. split; [done|]. split; [|done].
        intros z [->|Hz]%elem_of_cons; [done|by apply Hl1].
Qed.

Lemma newUser_falsy sid uid st :
  truthy uid = false → newUser sid uid st = (Normal tt, st, []).
Proof. intros H. unfold newUser. by rewrite H. Qed.

Lemma newUser_absent sid uid st :
  truthy uid = true →
  (∀ u, u ∈ onlineUsers st → socketId u ≠ sid) →
  let l := onlineUsers st ++ [{| socketId := sid; userId := String_ uid |}] in
  newUser sid uid st = (Normal tt, set_onlineUsers l st, [io_emit (usersOnline l)]).
Proof.
  intros Hu Hno l. subst l. unfold newUser. rewrite Hu. simpl. unfold_M.
  unfold findIndex. rewrite findIndex_from_none; [done|].
  intros u Hin. apply bool_decide_eq_false. by apply Hno.
Qed.

Lemma newUser_present sid uid st l1 u l2 :
  truthy uid = true →
  onlineUsers st = l1 ++ u :: l2 →
  (∀ v, v ∈ l1 → socketId v ≠ sid) →
  socketId u = sid →
  let l := l1 ++ {| socketId := sid; userId := String_ uid |} :: l2 in
  newUser sid uid st = (Normal tt, set_onlineUsers l st, [io_emit (usersOnline l)]).
Proof.
  intros Hu Hst Hl1 Hsid l. subst l. unfold newUser. rewrite Hu. simpl. unfold_M.
  unfold findIndex. rewrite Hst.
  rewrite findIndex_from_first;
    [|intros v Hv; apply bool_decide_eq_false; by apply Hl1
     |by apply bool_decide_eq_true].
  rewrite Z.add_0_l, Nat2Z.id.
  rewrite bool_decide_eq_true_2 by lia.
  rewrite list_lookup_middle by done. simpl.
  rewrite Hsid.
  replace (length l1) with (length l1 + 0)%nat at 1 2 by lia.
  by rewrite insert_app_r.
Qed.

(** C8: [newUser] with an empty or absent [userId] does nothing at all: both
    tables keep their value and nothing is emitted.  With a non-empty
    [userId] it never throws, leaves [rooms] alone, and then: if no entry of
    [onlineUsers] has the socket's id, a new entry [{socketId, userId}] is
    pushed at the end; otherwise the first entry with the socket's id gets
    the new [userId], every other entry and the order being kept.  In both
    cases exactly one effect follows, the [usersOnline] broadcast of the
    whole updated list. *)
Theorem newUser_identifies sid uid st :
  let r := newUser sid uid st in
  completion r = Normal tt
  ∧ rooms (state_of r) = rooms st
  ∧ (truthy uid = false → state_of r = st ∧ trace_of r = [])
  ∧ (truthy uid = true →
     trace_of r = [io_emit (usersOnline (onlineUsers (state_of r)))]
     ∧ ((∀ u, u ∈ onlineUsers st → socketId u ≠ sid) →
        onlineUsers (state_of r)
        = onlineUsers st ++ [{| socketId := sid; userId := String_ uid |}])
     ∧ (∀ l1 u l2,
          onlineUsers st = l1 ++ u :: l2 →
          (∀ v, v ∈ l1 → socketId v ≠ sid) →
          socketId u = sid →
          onlineUsers (state_of r)
          = l1 ++ {| socketId := sid; userId := String_ uid |} :: l2)).
Proof.
  intros r. subst r.
  destruct (truthy uid) eqn:Hu.
  - destruct (first_split (λ u, bool_decide (socketId u = sid)) (onlineUsers st))
      as [Hnone|(l1 & u & l2 & Hst & Hl1 & Hx)].
    + assert (∀ u, u ∈ onlineUsers st → socketId u ≠ sid) as Hno.
      { intros u Hin. eapply bool_decide_eq_false_1. by apply Hnone. }
      rewrite (newUser_absent _ _ _ Hu Hno).
      split; [done|]. split; [done|]. split; [done|]. intros _.
      split; [done|]. split; [done|].
      intros l1 u l2 Hst _ Hsid. destruct (Hno u); [|done].
      rewrite Hst. apply elem_of_app. right. left.
    + assert (∀ v, v ∈ l1 → socketId v ≠ sid) as Hl1'.
      { intros v Hin. eapply bool_decide_eq_false_1. by apply Hl1. }
      apply bool_decide_eq_true in Hx.
      rewrite (newUser_present _ _ _ _ _ _ Hu Hst Hl1' Hx).
      split; [done|]. split; [done|]. split; [done|]. intros _.
      split; [done|]. split.
      * intros Hno. destruct (Hno u); [|done].
        rewrite Hst. apply elem_of_app. right. left.
      * intros k1 v k2 Hst' Hk1 Hv. cbn [state_of fst snd onlineUsers set_onlineUsers].
        rewrite Hst in Hst'.
        assert (length l1 = length k1) as Hlen.
        { destruct (Nat.lt_total (length l1) (length k1)) as [Hlt|[?|Hlt]]; [|done|].
          - destruct (Hk1 u); [|done].
            apply (f_equal (λ l, l !! length l1)) in Hst'.
            rewrite list_lookup_middle in Hst' by done.
            rewrite lookup_app_l in Hst' by done.
            symmetry in Hst'. by apply list_elem_of_lookup_2 in Hst'.
          - destruct (Hl1' v); [|done].
            apply (f_equal (λ l, l !! length k1)) in Hst'.
            rewrite (list_lookup_middle k1) in Hst' by done.
            rewrite lookup_app_l in Hst' by done.
            by apply list_elem_of_lookup_2 in Hst'. }
        apply app_inj_1 in Hst' as [-> Heq]; [|done]. by injection Heq as -> ->.
  - rewrite (newUser_falsy _ _ _ Hu). split; [done|]. split; [done|].
    split; [done|]. intros ?. done.
Qed.

(** ** [connection] and [sendMessage] *)

Lemma connection_result sid st :
  let l := onlineUsers st ++ [{| socketId := sid; userId := EmptyString |}] in
  connection sid st =
    (Normal tt, set_onlineUsers l st,
     [console_log ["User connected:"; sid]; io_emit (usersOnline l)]).
Proof. reflexivity. Qed.

(** Whatever the file system does, the transcript block completes normally,
    touches no table and emits nothing to the sockets. *)
Lemma append_transcript_contained env roomId user text st :
  ∃ tr,
    try_catch (append_transcript env roomId user text)
      (λ e, tell (console_warn ["Failed adding chat to transcripts"; what_of e])) st
    = (Normal tt, st, tr)
    ∧ broadcasts tr = [].
Proof.
  unfold append_transcript. unfold_M.
  destruct (existsSync env (transcripts_dir env)); simpl.
  - destruct (appendFile_outcome env _); by eexists.
  - destruct (mkdirSync_error env (transcripts_dir env)); simpl; [by eexists|].
    destruct (appendFile_outcome env _); by eexists.
Qed.

Lemma sendMessage_result env roomId user text st :
  ∃ tr,
    sendMessage env roomId user text st =
      (Normal tt, st,
       io_to_emit roomId
         (message {| id := randomUUID (entropy env); user := user; text := text;
                     timestamp := Date_timestamp env |}) :: tr)
    ∧ broadcasts tr = [].
Proof.
  destruct (append_transcript_contained env roomId user text st) as (tr & Htr & Hb).
  exists tr. split; [|done]. unfold sendMessage.
  unfold bind at 1. unfold tell at 1. by rewrite Htr.
Qed.

(** ** The registry along a run *)

(** An entry of [onlineUsers] after an event was there before, unless the
    event registered it; the handlers of [connection], [newUser] and
    [disconnect] let no exception escape. *)
Lemma handle_registry env ev st :
  ∃ c st' tr,
    handle env ev st = (c, st', tr)
    ∧ (registry_event ev = true → c = Normal tt)
    ∧ ∀ sid, sid ∈ socketId <$> onlineUsers st' →
             (sid ∈ socketId <$> onlineUsers st ∧ ev ≠ Disconnect sid)
             ∨ registers sid ev.
Proof.
  destruct ev as [c|c uid|c roomId username email uid|c roomId|c roomId user text|c
                  |c|c];
    simpl.
  - rewrite connection_result. do 3 eexists. split; [done|]. split; [done|]. simpl.
    intros sid. rewrite fmap_app, elem_of_app. intros [H|H].
    + left. by split.
    + apply list_elem_of_singleton in H as ->. right. by left.
  - destruct (truthy uid) eqn:Hu.
    + destruct (first_split (λ u, bool_decide (socketId u = c)) (onlineUsers st))
        as [Hnone|(l1 & u & l2 & Hst & Hl1 & Hx)].
      * rewrite (newUser_absent _ _ _ Hu).
        2:{ intros u Hin. eapply bool_decide_eq_false_1. by apply Hnone. }
        do 3 eexists. split; [done|]. split; [done|]. simpl.
        intros sid. rewrite fmap_app, elem_of_app. intros [H|H].
        -- left. by split.
        -- apply list_elem_of_singleton in H as ->. right. right. by exists uid.
      * apply bool_decide_eq_true in Hx.
        rewrite (newUser_present _ _ _ l1 u l2 Hu Hst).
        2:{ intros v Hin. eapply bool_decide_eq_false_1. by apply Hl1. }
        2:{ done. }
        do 3 eexists. split; [done|]. split; [done|]. simpl.
        intros sid H. left. split; [|done].
        rewrite Hst. rewrite fmap_app, fmap_cons in *. simpl in H. by rewrite Hx.
    + rewrite (newUser_falsy _ _ _ Hu). do 3 eexists. split; [done|].
      split; [done|]. intros sid H. left. by split.
  - destruct (usable_key (rooms st) (String_ roomId)) eqn:Hk.
    + destruct (joinRoom_result env c roomId username email uid st Hk)
        as (tr & -> & _).
      do 3 eexists. split; [done|]. split; [done|]. intros sid H. left. by split.
    + rewrite (joinRoom_inherited _ _ _ _ _ _ _ Hk).
      do 3 eexists. split; [done|]. split; [done|]. intros sid H. left. by split.
  - destruct (rooms st !! String_ roomId) as [l|] eqn:Hl.
    + rewrite (leaveRoom_known _ _ _ _ Hl). do 3 eexists. split; [done|].
      split; [done|]. intros sid H. left. by split.
    + destruct (inherited (String_ roomId)) eqn:Hi.
      * rewrite leaveRoom_inherited by (by apply usable_key_false).
        do 3 eexists. split; [done|]. split; [done|]. intros sid H. left. by split.
      * rewrite (leaveRoom_unknown _ _ _ Hl Hi). do 3 eexists. split; [done|].
        split; [done|]. intros sid H. left. by split.
  - destruct (sendMessage_result env roomId user text st) as (tr & -> & _).
    do 3 eexists. split; [done|]. split; [done|]. intros sid H. left. by split.
  - rewrite disconnect_result. do 3 eexists. split; [done|]. split; [done|]. simpl.
    intros sid (u & -> & Hu)%list_elem_of_fmap.
    apply list_elem_of_filter in Hu as [Hne Hu]. left. split.
    + apply list_elem_of_fmap. by exists u.
    + intros [= ->]. done.
  - do 3 eexists. split; [done|]. split; [done|]. intros sid H. left. by split.
  - do 3 eexists. split; [done|]. split; [done|]. intros sid H. left. by split.
Qed.

(** A run that gets to its end. *)
Lemma run_registry evs st st' tr :
  run evs st = (Normal tt, st', tr) →
  ∀ sid, sid ∈ socketId <$> onlineUsers st' →
         (sid ∈ socketId <$> onlineUsers st ∧ stays_connected sid evs)
         ∨ ∃ pre env ev post,
             evs = pre ++ (env, ev) :: post
             ∧ registers sid ev ∧ stays_connected sid post.
Proof.
  revert st tr. induction evs as [|[env ev] evs IH]; intros st tr Hrun.
  - injection Hrun as <- _. intros sid H. left. split; [done|].
    intros env. apply not_elem_of_nil.
  - destruct (handle_registry env ev st) as (c & st1 & tr1 & Hh & _ & Hreg).
    rewrite run_cons in Hrun. unfold bind in Hrun. rewrite Hh in Hrun.
    destruct c as [[]|e]; [|discriminate].
    destruct (run evs st1) as [[c2 st2] tr2] eqn:Hr.
    injection Hrun as -> -> _.
    intros sid Hsid.
    destruct (IH _ _ Hr sid Hsid)
      as [[Hin Hstay]|(pre & env' & ev' & post & -> & Hr' & Hs)].
    + destruct (Hreg sid Hin) as [[Hin0 Hne]|Hr0].
      * left. split; [done|]. intros env' [Heq|H]%elem_of_cons.
        -- injection Heq as _ Hev. by destruct Hne.
        -- by apply (Hstay env').
      * right. by exists [], env, ev, evs.
    + right. by exists ((env, ev) :: pre), env', ev', post.
Qed.

(** A run of [connection], [newUser] and [disconnect] events gets to its
    end. *)
Lemma run_registry_events evs st :
  Forall (λ p : Env * Inbound, registry_event p.2 = true) evs →
  completion (run evs st) = Normal tt.
Proof.
  revert st. induction evs as [|[env ev] evs IH]; intros st Hall; [done|].
  apply Forall_cons in Hall as [Hev Hall].
  destruct (handle_registry env ev st) as (c & st1 & tr1 & Hh & Hn & _).
  rewrite (Hn Hev) in Hh. rewrite run_cons. unfold bind. rewrite Hh.
  specialize (IH st1 Hall). by destruct (run evs st1) as [[c2 st2] tr2].
Qed.

(** C5: take any sequence of events from the start of the process in which
    every event that registers a connection ([connection], or [newUser],
    which inserts when the entry is missing) is followed later in the
    sequence by the [disconnect] of that connection.  A sequence made of
    [connection], [newUser] and [disconnect] events runs to its end, and
    [onlineUsers] is empty then.  With other events among them
    [onlineUsers] is empty at the end as well, whenever the run gets there,
    that is when no handler lets an exception escape on the way. *)
Theorem registry_empty_after_disconnects evs :
  (∀ pre env ev post sid,
     evs = pre ++ (env, ev) :: post →
     registers sid ev →
     ∃ env', (env', Disconnect sid) ∈ post) →
  let r := run evs initial in
  (Forall (λ p : Env * Inbound, registry_event p.2 = true) evs →
   completion r = Normal tt ∧ onlineUsers (state_of r) = [])
  ∧ (completion r = Normal tt → onlineUsers (state_of r) = []).
Proof.
  intros Hall r.
  assert (completion r = Normal tt → onlineUsers (state_of r) = []) as Hend.
  { subst r. destruct (run evs initial) as [[c st'] tr] eqn:Hrun.
    cbn [completion state_of fst snd]. intros ->.
    pose proof (run_registry _ _ _ _ Hrun) as Hreg.
    destruct (onlineUsers st') as [|u l] eqn:Hl; [done|].
    destruct (Hreg (socketId u))
      as [[Hin _]|(pre & env & ev & post & Hevs & Hr & Hs)].
    - rewrite fmap_cons. left.
    - by apply not_elem_of_nil in Hin.
    - destruct (Hall pre env ev post (socketId u) Hevs Hr) as [env' Hd].
      by destruct (Hs env'). }
  split; [|done]. intros Hev.
  assert (completion r = Normal tt) as Hc by by apply run_registry_events.
  split; [done|]. by apply Hend.
Qed.

Lemma registry_empty_after_disconnects_witness :
  let r := run [ (posix_env, Connection "s1");
                 (posix_env, Connection "s2");
                 (posix_env, NewUser "s1" (Some "u1"));
                 (posix_env, Disconnect "s1");
                 (failing_env, Disconnect "s2") ] initial in
  completion r = Normal tt ∧ onlineUsers (state_of r) = [].
Proof.
  refine (proj1 (registry_empty_after_disconnects
           [ (posix_env, Connection "s1");
             (posix_env, Connection "s2");
             (posix_env, NewUser "s1" (Some "u1"));
             (posix_env, Disconnect "s1");
             (failing_env, Disconnect "s2") ] _) _).
  - intros pre env ev post sid Hevs Hreg.
    destruct pre as [|p0 [|p1 [|p2 [|p3 [|p4 [|p5 pre]]]]]];
      simplify_eq/=; destruct Hreg as [?|[? ?]]; simplify_eq;
      eexists; repeat (first [by left | right]).
  - repeat constructor.
Defined.

(** ** The message identifier *)

Lemma hex_value_digit n : (n < 16)%N → hex_value (hex_digit n) = n.
Proof.
  intros H. destruct n as [|p]; [done|].
  repeat (destruct p as [p|p|]; try done; try lia).
Qed.

Lemma hex_byte_inj a b :
  (a < 256)%N → (b < 256)%N → hex_byte a = hex_byte b → a = b.
Proof.
  intros Ha Hb [= Hhi Hlo].
  apply (f_equal hex_value) in Hhi, Hlo.
  rewrite !hex_value_digit in Hhi, Hlo by (apply N.mod_lt; lia).
  rewrite !N.shiftr_div_pow2 in Hhi. change (2 ^ 4)%N with 16%N in Hhi.
  zify. Z.to_euclidean_division_equations. lia.
Qed.

Lemma uuid_byte_lt entropy i : (uuid_byte entropy i < 256)%N.
Proof.
  assert (∀ x m c k, (N.log2 m < k)%N → (N.log2 c < k)%N →
            (N.lor (N.land x m) c < 2 ^ k)%N) as Hlor.
  { intros x m c k Hm Hc.
    destruct (N.eq_dec (N.lor (N.land x m) c) 0%N) as [->|Hne].
    - apply N.neq_0_lt_0, N.pow_nonzero. lia.
    - apply N.log2_lt_pow2; [lia|]. rewrite N.log2_lor.
      pose proof (N.log2_land x m). lia. }
  unfold uuid_byte, random_byte.
  destruct (i =? 6)%N; [apply (Hlor _ 15 64 8)%N; by vm_compute|].
  destruct (i =? 8)%N; [apply (Hlor _ 63 128 8)%N; by vm_compute|].
  change 255%N with (N.ones 8). rewrite N.land_ones. apply N.mod_lt. lia.
Qed.

Lemma randomUUID_length entropy : String.length (randomUUID entropy) = 36%nat.
Proof. reflexivity. Qed.

Lemma String_inj c1 s1 c2 s2 :
  String c1 s1 = String c2 s2 → c1 = c2 ∧ s1 = s2.
Proof. intros [= -> ->]. done. Qed.

Local Ltac byte_eq H Hhi Hlo :=
  apply String_inj in H as [Hhi H]; apply String_inj in H as [Hlo H].
Local Ltac dash_eq H := apply String_inj in H as [_ H].

(** Two identifiers are equal only if the sixteen bytes they print are. *)
Lemma randomUUID_inj e1 e2 :
  randomUUID e1 = randomUUID e2 →
  ∀ i, (i < 16)%N → uuid_byte e1 i = uuid_byte e2 i.
Proof.
  intros H i Hi.
  assert (hex_byte (uuid_byte e1 i) = hex_byte (uuid_byte e2 i)) as Hb.
  { unfold hex_byte. cbv [randomUUID hex_byte String.append] in H.
    byte_eq H H0 H0'. byte_eq H H1 H1'. byte_eq H H2 H2'. byte_eq H H3 H3'.
    dash_eq H. byte_eq H H4 H4'. byte_eq H H5 H5'.
    dash_eq H. byte_eq H H6 H6'. byte_eq H H7 H7'.
    dash_eq H. byte_eq H H8 H8'. byte_eq H H9 H9'.
    dash_eq H. byte_eq H H10 H10'. byte_eq H H11 H11'. byte_eq H H12 H12'.
    byte_eq H H13 H13'. byte_eq H H14 H14'. byte_eq H H15 H15'.
    clear H.
    destruct i as [|p]; [by rewrite H0, H0'|].
    repeat (match goal with
            | p : positive |- _ => destruct p as [p|p|]; try lia
            end);
      first [by rewrite H1, H1' | by rewrite H2, H2' | by rewrite H3, H3'
            | by rewrite H4, H4' | by rewrite H5, H5' | by rewrite H6, H6'
            | by rewrite H7, H7' | by rewrite H8, H8' | by rewrite H9, H9'
            | by rewrite H10, H10' | by rewrite H11, H11' | by rewrite H12, H12'
            | by rewrite H13, H13' | by rewrite H14, H14' | by rewrite H15, H15' ]. }
  apply hex_byte_inj in Hb; [done|apply uuid_byte_lt..].
Qed.

(** The message [sendMessage] delivers.  The handler broadcasts to room
    [roomId] one [message] event, its only broadcast, whose payload has the
    four fields [id], [user] (the author, as received), [text] (as received)
    and [timestamp].  The [id] is the string [crypto.randomUUID] returns in
    this very call, 36 characters printed from the sixteen bytes drawn; the
    [timestamp] is the clock as read during the call.  What the generator
    draws and what the clock shows are given by the environment. *)
Lemma sendMessage_payload env roomId author body st :
  let r := sendMessage env roomId author body st in
  ∃ m rest,
    trace_of r = io_to_emit roomId (message m) :: rest
    ∧ broadcasts (trace_of r) = [io_to_emit roomId (message m)]
    ∧ completion r = Normal tt
    ∧ state_of r = st
    ∧ user m = author
    ∧ text m = body
    ∧ id m = randomUUID (entropy env)
    ∧ String.length (id m) = 36%nat
    ∧ id m ≠ EmptyString
    ∧ (∀ env', randomUUID (entropy env') = id m →
               ∀ i, (i < 16)%N →
                    uuid_byte (entropy env') i = uuid_byte (entropy env) i)
    ∧ timestamp m = Date_timestamp env
    ∧ (call_time env ≤ timestamp m)%Z.
Proof.
  intros r. subst r.
  destruct (sendMessage_result env roomId author body st) as (tr & -> & Hb).
  exists {| id := randomUUID (entropy env); user := author; text := body;
            timestamp := Date_timestamp env |}, tr.
  cbn [trace_of state_of completion fst snd id user text timestamp].
  split; [done|]. split.
  { by rewrite broadcasts_cons, Hb. }
  do 5 (split; [done|]).
  split; [apply randomUUID_length|].
  split.
  { intros H.
    pose proof (randomUUID_length (entropy env)) as Hl. by rewrite H in Hl. }
  split; [intros env'; apply randomUUID_inj|].
  split; [done|]. unfold Date_timestamp. lia.
Qed.

(** ** The transcript *)

Lemma safe_char_spec c :
  safe_char c = true ↔
  ((97 ≤ nat_of_ascii c ≤ 122)%nat ∨ (65 ≤ nat_of_ascii c ≤ 90)%nat
   ∨ (48 ≤ nat_of_ascii c ≤ 57)%nat ∨ c = "-"%char ∨ c = "_"%char).
Proof.
  unfold safe_char.
  rewrite !orb_true_iff, !andb_true_iff, !Nat.leb_le, !Ascii.eqb_eq. tauto.
Qed.

Lemma sanitize_chars s :
  list_ascii_of_string (sanitize s)
  = (λ c, if safe_char c then c else "_"%char) <$> list_ascii_of_string s.
Proof. induction s as [|c s IH]; [done|]. simpl. by rewrite IH. Qed.

Lemma sanitize_safe s :
  Forall (λ c, safe_char c = true) (list_ascii_of_string (sanitize s)).
Proof.
  induction s as [|c s IH]; simpl; [constructor|]. constructor; [|done].
  by destruct (safe_char c) eqn:Hc.
Qed.

Lemma sanitize_lookup s i c :
  list_ascii_of_string s !! i = Some c →
  let n := nat_of_ascii c in
  list_ascii_of_string (sanitize s) !! i
  = Some (if decide ((nat_of_ascii "a" ≤ n ≤ nat_of_ascii "z")%nat
                     ∨ (nat_of_ascii "A" ≤ n ≤ nat_of_ascii "Z")%nat
                     ∨ (nat_of_ascii "0" ≤ n ≤ nat_of_ascii "9")%nat
                     ∨ c = "-"%char ∨ c = "_"%char)
          then c else "_"%char).
Proof.
  intros Hc n. rewrite sanitize_chars, list_lookup_fmap, Hc. simpl. f_equal.
  pose proof (safe_char_spec c) as Hs.
  destruct (safe_char c); case_decide as Hd; try done.
  - destruct Hd. by apply Hs.
  - by apply Hs in Hd.
Qed.

Lemma sanitize_length s : String.length (sanitize s) = String.length s.
Proof. induction s as [|c s IH]; [done|]. simpl. by rewrite IH. Qed.

Lemma js_or_Some s d :
  js_or (Some s) d = if String.eqb s EmptyString then d else s.
Proof. unfold js_or. simpl. by destruct (String.eqb s EmptyString). Qed.

(** C9: for a [sendMessage] event with room [room], author [author] and text
    [body], the handler first broadcasts the message, then runs the
    transcript block, whose effects are exactly these: the directory is
    created if it does not exist; if that fails the error is logged and
    nothing is appended; otherwise one line
    ["[" + ISO timestamp + "] (chat) " + author + ": " + body + "\n"] is
    appended to the file [transcript-<room>-<author>.txt] of the directory,
    where in both names every character outside [[a-zA-Z0-9-_]] is replaced
    by ['_'] (an empty room id counts as [global], an empty author as
    [unknown]); a failure of the append, thrown or passed to the callback,
    is logged.  Whatever the file system does the handler completes
    normally, changes no table, and its broadcast is the same.  The
    characters kept in the two names are exactly the letters [a] to [z] and
    [A] to [Z], the digits, ['-'] and ['_']: the sanitised name has the
    length of the name, a character of that class is where it was, and
    ['_'] stands at the place of any other. *)
Theorem sendMessage_transcript env room author body st :
  let r := sendMessage env (Some room) (Some author) (Some body) st in
  let dir := transcripts_dir env in
  let safeRoom := sanitize (if String.eqb room EmptyString then "global" else room) in
  let safeUser :=
    sanitize (if String.eqb author EmptyString then "unknown" else author) in
  let file := path_join env [dir; "transcript-" +:+ safeRoom +:+ "-" +:+ safeUser
                                  +:+ ".txt"] in
  let line := "[" +:+ toISOString env (Date_entry env) +:+ "] (chat) " +:+ author
              +:+ ": " +:+ body +:+ String "010"%char EmptyString in
  let delivery :=
    io_to_emit (Some room)
      (message {| id := randomUUID (entropy env); user := Some author;
                  text := Some body; timestamp := Date_timestamp env |}) in
  completion r = Normal tt
  ∧ state_of r = st
  ∧ broadcasts (trace_of r) = [delivery]
  ∧ trace_of r
    = delivery
      :: (if existsSync env dir then [] else [fs_mkdirSync dir])
      ++ match (if existsSync env dir then None else mkdirSync_error env dir) with
         | Some e => [console_warn ["Failed adding chat to transcripts"; what_of e]]
         | None =>
             fs_appendFile file line
             :: match appendFile_outcome env file with
                | AppendOk => []
                | AppendErr e =>
                    [console_warn ["Failed to append chat to transcript"; what_of e]]
                | AppendThrows e =>
                    [console_warn ["Failed adding chat to transcripts"; what_of e]]
                end
         end
  ∧ Forall (λ c, safe_char c = true) (list_ascii_of_string safeRoom)
  ∧ Forall (λ c, safe_char c = true) (list_ascii_of_string safeUser)
  ∧ (∀ s, list_ascii_of_string (sanitize s)
          = (λ c, if safe_char c then c else "_"%char) <$> list_ascii_of_string s)
  ∧ (∀ s i c,
       list_ascii_of_string s !! i = Some c →
       let n := nat_of_ascii c in
       list_ascii_of_string (sanitize s) !! i
       = Some (if decide ((nat_of_ascii "a" ≤ n ≤ nat_of_ascii "z")%nat
                          ∨ (nat_of_ascii "A" ≤ n ≤ nat_of_ascii "Z")%nat
                          ∨ (nat_of_ascii "0" ≤ n ≤ nat_of_ascii "9")%nat
                          ∨ c = "-"%char ∨ c = "_"%char)
               then c else "_"%char))
  ∧ (∀ s, String.length (sanitize s) = String.length s).
Proof.
  intros r dir safeRoom safeUser file line delivery.
  subst r dir safeRoom safeUser file line delivery.
  destruct (sendMessage_result env (Some room) (Some author) (Some body) st)
    as (tr & Hres & Hb).
  split; [by rewrite Hres|]. split; [by rewrite Hres|].
  split.
  { rewrite Hres. cbn [trace_of snd]. by rewrite broadcasts_cons, Hb. }
  split; [|split; [apply sanitize_safe|split; [apply sanitize_safe
          |split; [apply sanitize_chars|split;
                   [apply sanitize_lookup|apply sanitize_length]]]]].
  clear. unfold sendMessage, append_transcript, transcript_name, transcript_entry.
  rewrite !js_or_Some. unfold_M. simpl String_.
  destruct (existsSync env (transcripts_dir env)); simpl.
  - destruct (appendFile_outcome env _); done.
  - destruct (mkdirSync_error env (transcripts_dir env)); simpl; [done|].
    destruct (appendFile_outcome env _); done.
Qed.

(** * Further properties of the server *)

(** ** The allowed origins *)

Lemma trimStart_chars s c : c ∈ chars (trimStart s) → c ∈ chars s.
Proof.
  unfold chars. induction s as [|a s IH]; simpl; [done|].
  destruct (is_white_space a); [|done]. intros H. right. by apply IH.
Qed.

Lemma trimEnd_chars s c : c ∈ chars (trimEnd s) → c ∈ chars s.
Proof.
  unfold chars. revert c. induction s as [|a s IH]; intros c; simpl; [done|].
  destruct (trimEnd s) as [|b r] eqn:Hr.
  - destruct (is_white_space a); simpl; [by intros ?%not_elem_of_nil|].
    intros [->|?%not_elem_of_nil]%elem_of_cons; [left|done].
  - simpl. intros [->|H]%elem_of_cons; [left|]. right. by apply IH.
Qed.

Lemma trimStart_starts s : starts_with_space (trimStart s) = false.
Proof.
  induction s as [|a s IH]; simpl; [done|].
  destruct (is_white_space a) eqn:Ha; [done|]. simpl. done.
Qed.

Lemma trimEnd_ends s : ends_with_space (trimEnd s) = false.
Proof.
  induction s as [|a s IH]; simpl; [done|].
  destruct (trimEnd s) as [|b r] eqn:Hr.
  - destruct (is_white_space a) eqn:Ha; simpl; done.
  - done.
Qed.

Lemma trimEnd_starts s :
  starts_with_space s = false → starts_with_space (trimEnd s) = false.
Proof.
  destruct s as [|a s]; simpl; [done|]. intros Ha.
  destruct (trimEnd s); [by rewrite Ha|done].
Qed.

Lemma trimStart_id s : starts_with_space s = false → trimStart s = s.
Proof. destruct s as [|a s]; simpl; [done|]. by intros ->. Qed.

Lemma trimEnd_id s : ends_with_space s = false → trimEnd s = s.
Proof.
  induction s as [|a s IH]; simpl; [done|].
  destruct s as [|b s]; [by intros ->|]. intros H. rewrite (IH H). done.
Qed.

Lemma split_comma_chars s x : x ∈ split_comma s → ","%char ∉ chars x.
Proof.
  unfold chars. revert x. induction s as [|a s IH]; intros x; simpl.
  - intros ->%list_elem_of_singleton. apply not_elem_of_nil.
  - destruct (Ascii.eqb a ",") eqn:Ha.
    + intros [->|H]%elem_of_cons; [apply not_elem_of_nil|by apply IH].
    + apply Ascii.eqb_neq in Ha. destruct (split_comma s) as [|y ys].
      * intros ->%list_elem_of_singleton. simpl.
        intros [?|?%not_elem_of_nil]%elem_of_cons; [by subst|done].
      * intros [->|H]%elem_of_cons.
        -- simpl. intros [?|H]%elem_of_cons; [by subst|].
           apply (IH y); [left|done].
        -- apply IH. by right.
Qed.

(** The list handed to the CORS layer holds no empty entry, no entry with
    white space at either end, and no entry with a comma. *)
Lemma origins_clean_all ORIGIN : Forall clean_origin (origins ORIGIN).
Proof.
  apply Forall_forall. intros o. unfold origins.
  intros [Hne (x & -> & Hx)%list_elem_of_fmap]%list_elem_of_filter.
  split; [done|]. unfold trim.
  split; [apply trimEnd_starts, trimStart_starts|].
  split; [apply trimEnd_ends|].
  intros H%trimEnd_chars%trimStart_chars. by apply (split_comma_chars _ _ Hx).
Qed.

Lemma split_comma_single o : ","%char ∉ chars o → split_comma o = [o].
Proof.
  unfold chars. induction o as [|a o IH]; simpl; [done|].
  intros [Ha Ho]%not_elem_of_cons.
  rewrite (proj2 (Ascii.eqb_neq a ",")) by done. by rewrite (IH Ho).
Qed.

Lemma split_comma_app o rest :
  ","%char ∉ chars o →
  split_comma (o +:+ "," +:+ rest) = o :: split_comma rest.
Proof.
  unfold chars. induction o as [|a o IH]; simpl; [done|].
  intros [Ha Ho]%not_elem_of_cons.
  rewrite (proj2 (Ascii.eqb_neq a ",")) by done. by rewrite (IH Ho).
Qed.

Lemma split_comma_concat os :
  os ≠ [] →
  Forall (λ o, ","%char ∉ chars o) os →
  split_comma (String.concat "," os) = os.
Proof.
  induction os as [|o os IH]; [done|]. intros _ Hall.
  apply Forall_cons in Hall as [Ho Hos].
  destruct os as [|o' os]; [by apply split_comma_single|].
  change (String.concat "," (o :: o' :: os))
    with (o +:+ "," +:+ String.concat "," (o' :: os)).
  rewrite split_comma_app by done. by rewrite IH.
Qed.

Lemma trim_clean o : clean_origin o → trim o = o.
Proof.
  intros (_ & Hs & He & _). unfold trim. by rewrite (trimStart_id _ Hs), trimEnd_id.
Qed.

(** X1: whatever [ORIGIN] holds, no entry of [origins] is empty, starts or
    ends with white space, or contains a comma; an unset or empty [ORIGIN]
    allows no origin at all. *)
Theorem origins_clean ORIGIN :
  Forall clean_origin (origins ORIGIN)
  ∧ (ORIGIN = None ∨ ORIGIN = Some EmptyString → origins ORIGIN = []).
Proof.
  split; [apply origins_clean_all|]. by intros [->| ->].
Qed.

(** X2: writing clean origins into [ORIGIN] separated by commas and reading
    them back gives the same list, in the same order, duplicates kept. *)
Theorem origins_round_trip os :
  Forall clean_origin os →
  origins (Some (String.concat "," os)) = os.
Proof.
  intros Hall. destruct (decide (os = [])) as [->|Hne]; [done|].
  unfold origins. simpl default. rewrite split_comma_concat; [|done|].
  2:{ eapply Forall_impl; [exact Hall|]. by intros o (_ & _ & _ & ?). }
  assert (trim <$> os = os) as ->.
  { clear Hne. induction Hall as [|o os Ho _ IH]; [done|].
    by rewrite fmap_cons, IH, trim_clean. }
  clear Hne. induction Hall as [|o os Ho _ IH]; [done|].
  rewrite filter_cons_True by apply Ho. by rewrite IH.
Qed.

Lemma origins_round_trip_witness :
  origins (Some "http://localhost:3001,http://localhost:5173")
  = ["http://localhost:3001"; "http://localhost:5173"].
Proof.
  apply (origins_round_trip ["http://localhost:3001"; "http://localhost:5173"]).
  repeat constructor; try done; unfold chars; simpl; compute_done.
Defined.

Example origins_padded :
  origins (Some " http://localhost:3001 ,, http://localhost:5173 ,")
  = ["http://localhost:3001"; "http://localhost:5173"].
Proof. reflexivity. Qed.

(** ** The backend URL *)

Lemma strip_trailing_slashes_last s :
  last_char (strip_trailing_slashes s) ≠ Some "/"%char.
Proof.
  induction s as [|a s IH]; simpl; [done|].
  destruct (strip_trailing_slashes s) as [|b r] eqn:Hr.
  - destruct (Ascii.eqb a "/") eqn:Ha; simpl; [done|].
    apply Ascii.eqb_neq in Ha. congruence.
  - exact IH.
Qed.

Lemma strip_trailing_slashes_split s :
  ∃ n, s = strip_trailing_slashes s +:+ slashes n.
Proof.
  induction s as [|a s [n IH]]; simpl; [by exists 0%nat|].
  destruct (strip_trailing_slashes s) as [|b r] eqn:Hr.
  - destruct (Ascii.eqb a "/") eqn:Ha.
    + apply Ascii.eqb_eq in Ha as ->. exists (S n). by rewrite IH at 1.
    + exists n. by rewrite IH at 1.
  - exists n. by rewrite IH at 1.
Qed.

Lemma fetch_calls_app tr1 tr2 :
  fetch_calls (tr1 ++ tr2) = fetch_calls tr1 ++ fetch_calls tr2.
Proof. apply omap_app. Qed.

(** The trace of [joinRoom], in full. *)
Lemma joinRoom_trace env sid roomId username email uid st :
  usable_key (rooms st) (String_ roomId) = true →
  let new := default [] (rooms st !! String_ roomId)
             ++ [{| member_socketId := sid; username := username |}] in
  let failed := λ e,
    console_warn ["[chat] failed to persist participant to backend"; what_of e] in
  trace_of (joinRoom env sid roomId username email uid st)
  = [socket_join sid roomId;
     socket_data sid "username" username;
     socket_data sid "email" email;
     console_log
       ["User " +:+ String_ username +:+ " joined room " +:+ String_ roomId];
     io_to_emit roomId (roomUsers (Some new))]
    ++ (if truthy email then
          match encodeURIComponent env (String_ roomId) with
          | inl e => [failed e]
          | inr room =>
              let url := backend_base env +:+ "/api/meetings/" +:+ room
                         +:+ "/participants" in
              fetch url {| p_email := email; p_userId := uid; p_name := username |}
              :: match fetch_rejection env url with
                 | Some e => [failed e]
                 | None => []
                 end
          end
        else []).
Proof.
  intros Hu new failed. subst new failed.
  unfold joinRoom, notify_backend, backend_base. unfold_M. unfold usable_key in Hu.
  destruct (rooms st !! String_ roomId) as [l|] eqn:Hl; simpl.
  - rewrite Hl. simpl. rewrite lookup_insert_eq.
    destruct (truthy email); [|done].
    destruct (encodeURIComponent env (String_ roomId)) as [e|room]; [done|].
    simpl. by destruct (fetch_rejection env _).
  - apply negb_true_iff in Hu. rewrite Hu. simpl.
    rewrite lookup_insert_eq. simpl. rewrite lookup_insert_eq.
    destruct (truthy email); [|done].
    destruct (encodeURIComponent env (String_ roomId)) as [e|room]; [done|].
    simpl. by destruct (fetch_rejection env _).
Qed.

(** X3: [joinRoom] contacts the backend at most once, and only when the
    member list could be updated (the room id is a key of the table already,
    or it is not a name inherited from [Object.prototype]), the payload
    carries a non-empty [email] and the room id can be encoded.  The
    request goes to [<base>/api/meetings/<encoded room>/participants] with
    the body [{email, userId, name: username}], where [<base>] is
    [BACKEND_BASE] (or [http://localhost:3000]) less its trailing slashes:
    it never ends with a slash. *)
Theorem joinRoom_backend_call env sid roomId username email uid st :
  fetch_calls (trace_of (joinRoom env sid roomId username email uid st))
  = (if usable_key (rooms st) (String_ roomId) && truthy email then
       match encodeURIComponent env (String_ roomId) with
       | inr room =>
           [(backend_base env +:+ "/api/meetings/" +:+ room +:+ "/participants",
             {| p_email := email; p_userId := uid; p_name := username |})]
       | inl _ => []
       end
     else [])
  ∧ last_char (backend_base env) ≠ Some "/"%char
  ∧ ∃ n, js_or (BACKEND_BASE env) "http://localhost:3000"
         = backend_base env +:+ slashes n.
Proof.
  split; [|split; [apply strip_trailing_slashes_last
                  |apply strip_trailing_slashes_split]].
  destruct (usable_key (rooms st) (String_ roomId)) eqn:Hu.
  - rewrite (joinRoom_trace _ _ _ _ _ _ _ Hu), fetch_calls_app. simpl.
    destruct (truthy email); [|done].
    destruct (encodeURIComponent env (String_ roomId)) as [e|room]; [done|].
    by destruct (fetch_rejection env _).
  - by rewrite (joinRoom_inherited _ _ _ _ _ _ _ Hu).
Qed.

(** X4: the outcome of the backend notification cannot reach the tables or
    the sockets.  Under any two environments [joinRoom] completes normally
    with the same tables and the same broadcasts; when the notification is
    reached (the member list could be updated and the payload has a
    non-empty [email]), a rejected request, or a room id that cannot be
    encoded, only adds a [console.warn] at the end of the trace. *)
Theorem joinRoom_backend_failure_contained env env' sid roomId username email uid st :
  let r := joinRoom env sid roomId username email uid st in
  let r' := joinRoom env' sid roomId username email uid st in
  let failed := λ e,
    console_warn ["[chat] failed to persist participant to backend"; what_of e] in
  completion r = Normal tt
  ∧ state_of r = state_of r'
  ∧ broadcasts (trace_of r) = broadcasts (trace_of r')
  ∧ (usable_key (rooms st) (String_ roomId) = true →
     truthy email = true →
     (∀ e, encodeURIComponent env (String_ roomId) = inl e →
           last (trace_of r) = Some (failed e))
     ∧ (∀ room e,
          encodeURIComponent env (String_ roomId) = inr room →
          fetch_rejection env
            (backend_base env +:+ "/api/meetings/" +:+ room +:+ "/participants")
          = Some e →
          last (trace_of r) = Some (failed e)))
  ∧ (usable_key (rooms st) (String_ roomId) = false →
     trace_of r = trace_of r'
     ∧ last (trace_of r)
       = Some (console_warn ["[chat] joinRoom handler error";
                             what_of push_TypeError])).
Proof.
  intros r r' failed. subst r r' failed.
  destruct (usable_key (rooms st) (String_ roomId)) eqn:Hu.
  - split; [|split; [|split; [|split; [|done]]]].
    + by destruct (joinRoom_result env sid roomId username email uid st Hu)
        as (tr & -> & _).
    + destruct (joinRoom_result env sid roomId username email uid st Hu)
        as (tr & -> & _).
      by destruct (joinRoom_result env' sid roomId username email uid st Hu)
        as (tr' & -> & _).
    + destruct (joinRoom_result env sid roomId username email uid st Hu)
        as (tr & -> & Hb).
      destruct (joinRoom_result env' sid roomId username email uid st Hu)
        as (tr' & -> & Hb').
      cbn [trace_of snd]. by rewrite !broadcasts_app, Hb, Hb'.
    + intros _ He. rewrite (joinRoom_trace _ _ _ _ _ _ _ Hu), He. split.
      * intros e ->. by rewrite last_app.
      * intros room e -> Hf. cbv zeta. rewrite Hf. by rewrite last_app.
  - rewrite !(joinRoom_inherited _ _ _ _ _ _ _ Hu). by repeat split.
Qed.

(** ** The transcript directory *)

Lemma default_dir_cases (exists_ : string → bool) c1 c2 :
  let d := js_or (find_first exists_ [c1; c2]) c1 in
  d = c1 ∨ (d = c2 ∧ exists_ c1 = false ∧ exists_ c2 = true).
Proof.
  simpl. unfold js_or, truthy, String_.
  destruct (exists_ c1) eqn:H1.
  - left. by destruct (negb _).
  - destruct (exists_ c2) eqn:H2; [|by left]. destruct (negb _); auto.
Qed.

Lemma transcripts_dir_cases env :
  (∃ d, TRANSCRIPTS_DIR env = Some d ∧ d ≠ EmptyString ∧ transcripts_dir env = d)
  ∨ (truthy (TRANSCRIPTS_DIR env) = false
     ∧ (transcripts_dir env = resume_transcripts env
        ∨ (transcripts_dir env = back_transcripts env
           ∧ existsSync env (resume_transcripts env) = false
           ∧ existsSync env (back_transcripts env) = true))).
Proof.
  pose proof (default_dir_cases (existsSync env) (resume_transcripts env)
                (back_transcripts env)) as Hauto.
  unfold transcripts_dir. fold (resume_transcripts env). fold (back_transcripts env).
  cbv zeta in *.
  destruct (TRANSCRIPTS_DIR env) as [d|] eqn:Hd.
  - destruct (String.eqb d EmptyString) eqn:Hd0.
    + right. apply String.eqb_eq in Hd0 as ->. split; [done|]. exact Hauto.
    + left. exists d. split; [done|]. split; [by apply String.eqb_neq|].
      unfold js_or at 1 3. unfold truthy at 2 3. rewrite Hd0. simpl.
      unfold truthy. by rewrite Hd0.
  - right. split; [done|]. exact Hauto.
Qed.

(** The trace of [sendMessage], in full, whatever the payload holds. *)
Lemma sendMessage_trace env roomId author body st :
  let dir := transcripts_dir env in
  let file := path_join env [dir; transcript_name roomId author] in
  trace_of (sendMessage env roomId author body st)
  = io_to_emit roomId
      (message {| id := randomUUID (entropy env); user := author; text := body;
                  timestamp := Date_timestamp env |})
    :: (if existsSync env dir then [] else [fs_mkdirSync dir])
    ++ match (if existsSync env dir then None else mkdirSync_error env dir) with
       | Some e => [console_warn ["Failed adding chat to transcripts"; what_of e]]
       | None =>
           fs_appendFile file (transcript_entry env author body)
           :: match appendFile_outcome env file with
              | AppendOk => []
              | AppendErr e =>
                  [console_warn ["Failed to append chat to transcript"; what_of e]]
              | AppendThrows e =>
                  [console_warn ["Failed adding chat to transcripts"; what_of e]]
              end
       end.
Proof.
  intros dir file. subst dir file.
  unfold sendMessage, append_transcript. unfold_M.
  destruct (existsSync env (transcripts_dir env)); simpl.
  - destruct (appendFile_outcome env _); done.
  - destruct (mkdirSync_error env (transcripts_dir env)); simpl; [done|].
    destruct (appendFile_outcome env _); done.
Qed.

(** X5: where the transcripts go.  A non-empty [TRANSCRIPTS_DIR] is used as
    it is, whatever the disk holds.  Otherwise the directory is the
    [AgoraX_resume] candidate if it exists or if neither candidate exists,
    and the [agoraX_back] candidate only when that one exists and the first
    does not. *)
Theorem transcripts_dir_choice env :
  (∀ d, TRANSCRIPTS_DIR env = Some d → d ≠ EmptyString → transcripts_dir env = d)
  ∧ (truthy (TRANSCRIPTS_DIR env) = false →
     (existsSync env (resume_transcripts env) = true →
      transcripts_dir env = resume_transcripts env)
     ∧ (existsSync env (resume_transcripts env) = false →
        existsSync env (back_transcripts env) = false →
        transcripts_dir env = resume_transcripts env)
     ∧ (existsSync env (resume_transcripts env) = false →
        existsSync env (back_transcripts env) = true →
        back_transcripts env ≠ EmptyString →
        transcripts_dir env = back_transcripts env)).
Proof.
  split.
  - intros d Hd Hne.
    destruct (transcripts_dir_cases env) as [(d' & Hd' & _ & ->)|[Ht _]].
    + congruence.
    + rewrite Hd in Ht. simpl in Ht. apply String.eqb_neq in Hne.
      by rewrite Hne in Ht.
  - intros Ht.
    assert (transcripts_dir env
            = js_or (find_first (existsSync env)
                       [resume_transcripts env; back_transcripts env])
                (resume_transcripts env)) as ->.
    { unfold transcripts_dir. fold (resume_transcripts env).
      fold (back_transcripts env). cbv zeta.
      destruct (TRANSCRIPTS_DIR env) as [d|]; [|done].
      simpl in Ht. apply negb_false_iff in Ht.
      unfold js_or at 1 3. unfold truthy at 2 3. rewrite Ht. simpl. done. }
    simpl. unfold js_or, truthy, String_. repeat split.
    + intros ->. by destruct (negb _).
    + by intros -> ->.
    + intros -> -> Hne. apply String.eqb_neq in Hne. by rewrite Hne.
Qed.

(** X6: [sendMessage] creates a directory only if the transcript directory
    does not exist, and then only that one; the directory it creates is the
    configured one or the [AgoraX_resume] candidate, never the [agoraX_back]
    one.  Nothing is appended when the creation fails, and at most one line
    is appended per message. *)
Theorem sendMessage_creates_missing_dir env roomId author body st :
  let tr := trace_of (sendMessage env roomId author body st) in
  mkdirSync_calls tr
  = (if existsSync env (transcripts_dir env) then [] else [transcripts_dir env])
  ∧ (∀ d, d ∈ mkdirSync_calls tr →
          existsSync env d = false
          ∧ (TRANSCRIPTS_DIR env = Some d ∨ d = resume_transcripts env))
  ∧ (length (appendFile_calls tr) ≤ 1)%nat
  ∧ (∀ d e, d ∈ mkdirSync_calls tr → mkdirSync_error env d = Some e →
            appendFile_calls tr = []).
Proof.
  intros tr. subst tr. rewrite sendMessage_trace. cbv zeta.
  destruct (existsSync env (transcripts_dir env)) eqn:Hex.
  - destruct (appendFile_outcome env _); simpl;
      (split; [done|]; split; [by intros d ?%not_elem_of_nil|];
       split; [lia|]; by intros d' e' ?%not_elem_of_nil).
  - assert (∀ d, d ∈ [transcripts_dir env] →
              existsSync env d = false
              ∧ (TRANSCRIPTS_DIR env = Some d ∨ d = resume_transcripts env)) as Hd.
    { intros d ->%list_elem_of_singleton. split; [done|].
      destruct (transcripts_dir_cases env)
        as [(d' & Hd' & _ & <-)|[_ [->|(Hr & _ & Hb)]]]; auto.
      rewrite Hr in Hex. congruence. }
    destruct (mkdirSync_error env (transcripts_dir env)) as [e|] eqn:He.
    + simpl. split; [done|]. split; [done|]. split; [lia|done].
    + destruct (appendFile_outcome env _); simpl;
        (split; [done|]; split; [done|]; split; [lia|]);
        intros d' e' ->%list_elem_of_singleton; congruence.
Qed.

(** ** Messages with missing fields, and file names *)

Lemma appendFile_calls_transcript env roomId author body st :
  existsSync env (transcripts_dir env) = true
  ∨ mkdirSync_error env (transcripts_dir env) = None →
  appendFile_calls (trace_of (sendMessage env roomId author body st))
  = [(path_join env [transcripts_dir env; transcript_name roomId author],
      transcript_entry env author body)].
Proof.
  intros Hdir. rewrite sendMessage_trace. cbv zeta.
  destruct (existsSync env (transcripts_dir env)) eqn:Hex.
  - by destruct (appendFile_outcome env _).
  - destruct Hdir as [? | ->]; [done|]. by destruct (appendFile_outcome env _).
Qed.

(** X7: [sendMessage] validates nothing.  When the room id and the author
    are missing or empty and the directory is available, the message is
    still broadcast, with the fields as received, to the room as received;
    the line goes to [transcript-global-unknown.txt], and its author and
    text are printed as received, a missing one as [undefined]. *)
Theorem sendMessage_missing_fields env roomId author body st :
  truthy roomId = false →
  truthy author = false →
  existsSync env (transcripts_dir env) = true
  ∨ mkdirSync_error env (transcripts_dir env) = None →
  let tr := trace_of (sendMessage env roomId author body st) in
  broadcasts tr
  = [io_to_emit roomId
       (message {| id := randomUUID (entropy env); user := author; text := body;
                   timestamp := Date_timestamp env |})]
  ∧ appendFile_calls tr
    = [(path_join env [transcripts_dir env; "transcript-global-unknown.txt"],
        "[" +:+ toISOString env (Date_entry env) +:+ "] (chat) "
        +:+ match author with Some a => a | None => "undefined" end +:+ ": "
        +:+ match body with Some t => t | None => "undefined" end
        +:+ String "010"%char EmptyString)].
Proof.
  intros Hr Ha Hdir tr. subst tr. split.
  - destruct (sendMessage_result env roomId author body st) as (tr & -> & Hb).
    cbn [trace_of snd]. by rewrite broadcasts_cons, Hb.
  - rewrite appendFile_calls_transcript by done.
    unfold transcript_name, js_or. by rewrite Hr, Ha.
Qed.

Lemma sendMessage_missing_fields_witness :
  let tr := trace_of (sendMessage posix_env None None (Some "hi") initial) in
  broadcasts tr
  = [io_to_emit None
       (message {| id := randomUUID (entropy posix_env); user := None;
                   text := Some "hi"; timestamp := Date_timestamp posix_env |})]
  ∧ appendFile_calls tr
    = [(path_join posix_env
          [transcripts_dir posix_env; "transcript-global-unknown.txt"],
        "[" +:+ toISOString posix_env (Date_entry posix_env) +:+ "] (chat) "
        +:+ "undefined" +:+ ": " +:+ "hi" +:+ String "010"%char EmptyString)].
Proof.
  apply (sendMessage_missing_fields posix_env None None (Some "hi") initial).
  - reflexivity.
  - reflexivity.
  - right. reflexivity.
Defined.

Lemma sanitize_app a b : sanitize (a +:+ b) = sanitize a +:+ sanitize b.
Proof. induction a as [|c a IH]; [done|]. simpl. by rewrite IH. Qed.

Lemma safe_char_underscore : safe_char "_" = true.
Proof. reflexivity. Qed.

(** X8: a name made of letters, digits, ['-'] and ['_'] only is used as it
    is; sanitizing keeps the length, cleans each part of a concatenation on
    its own, and changes nothing when applied a second time. *)
Theorem sanitize_stable s :
  (Forall (λ c, safe_char c = true) (chars s) → sanitize s = s)
  ∧ sanitize (sanitize s) = sanitize s
  ∧ String.length (sanitize s) = String.length s
  ∧ (∀ t, sanitize (s +:+ t) = sanitize s +:+ sanitize t).
Proof.
  split; [|split; [|split]].
  - unfold chars. induction s as [|c s IH]; [done|]. simpl.
    intros [Hc Hs]%Forall_cons. by rewrite Hc, IH.
  - induction s as [|c s IH]; [done|]. simpl. rewrite IH.
    destruct (safe_char c) eqn:Hc; [by rewrite Hc|by rewrite safe_char_underscore].
  - induction s as [|c s IH]; [done|]. simpl. by rewrite IH.
  - apply sanitize_app.
Qed.

Lemma sanitize_stable_witness : sanitize "daily-standup_42" = "daily-standup_42".
Proof.
  apply (proj1 (sanitize_stable "daily-standup_42")).
  unfold chars. simpl. repeat constructor.
Defined.

Lemma js_or_nonempty s d : s ≠ EmptyString → js_or (Some s) d = s.
Proof.
  intros H. unfold js_or, truthy. simpl.
  by rewrite (proj2 (String.eqb_neq _ _)) by done.
Qed.

Lemma append_nonempty_l a b : a ≠ EmptyString → a +:+ b ≠ EmptyString.
Proof. by destruct a. Qed.

Lemma append_assoc (a b c : string) : (a +:+ b) +:+ c = a +:+ (b +:+ c).
Proof.
  induction a as [|x a IH]; [done|].
  change (String x ((a +:+ b) +:+ c) = String x (a +:+ (b +:+ c))). by rewrite IH.
Qed.

Lemma length_append (a b : string) :
  String.length (a +:+ b) = (String.length a + String.length b)%nat.
Proof.
  induction a as [|x a IH]; [done|].
  change (S (String.length (a +:+ b)) = S (String.length a + String.length b)).
  by rewrite IH.
Qed.

(** X9: the file name does not tell the room from the author.  Moving a
    ['-']-separated piece from the end of the room id to the front of the
    author gives a different (room, author) pair and the same transcript
    file. *)
Theorem transcript_name_collision room piece author :
  room ≠ EmptyString →
  author ≠ EmptyString →
  room +:+ "-" +:+ piece ≠ room
  ∧ transcript_name (Some (room +:+ "-" +:+ piece)) (Some author)
    = transcript_name (Some room) (Some (piece +:+ "-" +:+ author)).
Proof.
  intros Hr Ha. split.
  - intros H. apply (f_equal String.length) in H.
    rewrite !length_append in H. simpl in H. lia.
  - unfold transcript_name.
    assert (piece +:+ "-" +:+ author ≠ EmptyString) as Hpa by by destruct piece.
    rewrite !js_or_nonempty by (try done; by apply append_nonempty_l).
    rewrite !sanitize_app. simpl sanitize. by rewrite !append_assoc.
Qed.

Lemma transcript_name_collision_witness :
  "ops" +:+ "-" +:+ "eu" ≠ "ops"
  ∧ transcript_name (Some ("ops" +:+ "-" +:+ "eu")) (Some "alice")
    = transcript_name (Some "ops") (Some ("eu" +:+ "-" +:+ "alice")).
Proof.
  apply (transcript_name_collision "ops" "eu" "alice"); discriminate.
Defined.

(** ** The handlers as state transformers *)

Lemma set_userId_none sid uid l :
  (∀ u, u ∈ l → socketId u ≠ sid) → set_userId sid uid l = None.
Proof.
  induction l as [|u l IH]; [done|]. intros H. simpl.
  rewrite decide_False by (apply H; left). rewrite IH; [done|].
  intros v Hv. apply H. by right.
Qed.

Lemma set_userId_first sid uid l1 u l2 :
  (∀ v, v ∈ l1 → socketId v ≠ sid) →
  socketId u = sid →
  set_userId sid uid (l1 ++ u :: l2)
  = Some (l1 ++ {| socketId := sid; userId := uid |} :: l2).
Proof.
  intros H Hu. induction l1 as [|v l1 IH]; simpl.
  - by rewrite decide_True.
  - rewrite decide_False by (apply H; left). rewrite IH; [done|].
    intros w Hw. apply H. by right.
Qed.

Lemma purge_all sid st :
  for_each (room_keys st) (purge_room sid) st
  = (Normal tt, set_rooms (without sid <$> rooms st) st,
     purge_broadcast sid <$> map_to_list (rooms st)).
Proof.
  destruct (purge_loop sid (map_to_list (rooms st)) st) as (m' & Hrun & Hm').
  { apply NoDup_fst_map_to_list. }
  { intros k l. apply elem_of_map_to_list. }
  unfold room_keys. rewrite Hrun.
  assert (m' = without sid <$> rooms st) as ->; [|done].
  apply map_eq. intros k. rewrite Hm', lookup_fmap.
  case_decide as Hk; [done|].
  destruct (rooms st !! k) as [l|] eqn:Hl; [|done].
  destruct Hk. apply list_elem_of_fmap. exists (k, l).
  split; [done|]. by apply elem_of_map_to_list.
Qed.

(** Every handler ends in the state given by [step], by the exception given
    by [escapes] if there is one and normally otherwise. *)
Lemma handle_step env ev st :
  ∃ tr, handle env ev st
        = (match escapes ev st with Some e => Throw e | None => Normal tt end,
           step ev st, tr).
Proof.
  destruct ev as [c|c uid|c roomId username email uid|c roomId|c roomId user text|c
                  |c|c];
    unfold step; simpl.
  - rewrite connection_result. eexists. f_equal.
  - destruct (truthy uid) eqn:Hu.
    + destruct (first_split (λ u, bool_decide (socketId u = c)) (onlineUsers st))
        as [Hnone|(l1 & u & l2 & Hst & Hl1 & Hx)].
      * assert (∀ u, u ∈ onlineUsers st → socketId u ≠ c) as Hno.
        { intros u Hin. eapply bool_decide_eq_false_1. by apply Hnone. }
        rewrite (newUser_absent _ _ _ Hu Hno), set_userId_none by done.
        eexists. f_equal.
      * assert (∀ v, v ∈ l1 → socketId v ≠ c) as Hl1'.
        { intros v Hin. eapply bool_decide_eq_false_1. by apply Hl1. }
        apply bool_decide_eq_true in Hx.
        rewrite (newUser_present _ _ _ l1 u l2 Hu Hst Hl1' Hx).
        rewrite Hst, set_userId_first by done. eexists. f_equal.
    + rewrite (newUser_falsy _ _ _ Hu). eexists. f_equal. by destruct st.
  - destruct (usable_key (rooms st) (String_ roomId)) eqn:Hk.
    + destruct (joinRoom_result env c roomId username email uid st Hk)
        as (tr & -> & _).
      eexists. f_equal.
    + rewrite (joinRoom_inherited _ _ _ _ _ _ _ Hk). eexists. f_equal.
      by destruct st.
  - destruct (rooms st !! String_ roomId) as [l|] eqn:Hl.
    + rewrite (leaveRoom_known _ _ _ _ Hl), (usable_key_own _ _ _ Hl).
      eexists. do 2 f_equal.
      unfold set_rooms. f_equal. apply map_eq. intros k.
      destruct (decide (k = String_ roomId)) as [->|Hne].
      * by rewrite lookup_insert_eq, lookup_alter_eq, Hl.
      * by rewrite lookup_insert_ne, lookup_alter_ne.
    + assert (alter (without c) (String_ roomId) (rooms st) = rooms st) as ->.
      { apply map_eq. intros k.
        destruct (decide (k = String_ roomId)) as [->|Hne].
        - by rewrite lookup_alter_eq, Hl.
        - by rewrite lookup_alter_ne. }
      destruct (inherited (String_ roomId)) eqn:Hi.
      * assert (usable_key (rooms st) (String_ roomId) = false) as Hk
          by by apply usable_key_false.
        rewrite (leaveRoom_inherited _ _ _ Hk), Hk. eexists. f_equal.
        by destruct st.
      * rewrite (leaveRoom_unknown _ _ _ Hl Hi), (usable_key_fresh _ _ Hi).
        eexists. do 2 f_equal. by destruct st.
  - destruct (sendMessage_result env roomId user text st) as (tr & -> & _).
    eexists. f_equal. by destruct st.
  - rewrite disconnect_result. eexists. f_equal.
  - eexists. unfold throw. f_equal. by destruct st.
  - eexists. unfold throw. f_equal. by destruct st.
Qed.

Lemma run_step evs st :
  ∃ tr, run evs st = ((steps evs.*2 st).1, (steps evs.*2 st).2, tr).
Proof.
  revert st. induction evs as [|[env ev] evs IH]; intros st; [by eexists|].
  destruct (handle_step env ev st) as (tr1 & H1).
  rewrite run_cons. unfold bind. rewrite H1. rewrite fmap_cons. simpl.
  destruct (escapes ev st) as [e|]; [by eexists|].
  destruct (IH (step ev st)) as (tr2 & H2). rewrite H2. by eexists.
Qed.

(** A run that gets to its end has made every step. *)
Lemma steps_normal l st :
  (steps l st).1 = Normal tt → (steps l st).2 = foldl (λ s ev, step ev s) st l.
Proof.
  revert st. induction l as [|ev l IH]; intros st; [done|]. simpl.
  destruct (escapes ev st); [done|]. apply IH.
Qed.

(** X10: the outcome of a run is a function of the events alone.  A run ends
    as [steps] computes without looking at the environment: by the exception
    of the first handler that lets one escape, in the state reached then, or
    normally after every event.  So two runs of the same events under
    different environments (clock, random generator, disk, backend) end in
    the same way with the same [onlineUsers] and the same [rooms]; and a run
    that gets to its end has applied [step] for each of its events. *)
Theorem tables_independent_of_environment evs st :
  (completion (run evs st), state_of (run evs st)) = steps evs.*2 st
  ∧ (∀ evs', evs'.*2 = evs.*2 →
             completion (run evs' st) = completion (run evs st)
             ∧ state_of (run evs' st) = state_of (run evs st))
  ∧ (completion (run evs st) = Normal tt →
     state_of (run evs st) = foldl (λ s ev, step ev s) st evs.*2).
Proof.
  destruct (run_step evs st) as (tr & Hrun).
  split; [|split].
  - rewrite Hrun. cbn [completion state_of fst snd]. by destruct (steps _ _).
  - intros evs' Heq. destruct (run_step evs' st) as (tr' & Hrun').
    by rewrite Hrun, Hrun', Heq.
  - rewrite Hrun. cbn [completion state_of fst snd]. apply steps_normal.
Qed.

Lemma dom_rooms_step ev (m : gmap string (list RoomUser)) :
  dom (rooms_step ev m) = dom m ∪ created_key ev.
Proof.
  destruct ev as [c|c uid|c roomId username email uid|c roomId|c roomId user text|c
                  |c|c];
    simpl; rewrite ?dom_alter_L, ?dom_fmap_L;
    try by rewrite (right_id_L ∅ (∪)).
  unfold usable_key.
  destruct (m !! String_ roomId) as [l|] eqn:Hl; simpl.
  - rewrite dom_insert_L, (comm_L (∪)).
    destruct (inherited (String_ roomId)); [|done].
    rewrite (right_id_L ∅ (∪)), (comm_L (∪)). apply subseteq_union_1_L.
    apply singleton_subseteq_l, elem_of_dom. by eexists.
  - destruct (inherited (String_ roomId)); simpl.
    + by rewrite (right_id_L ∅ (∪)).
    + rewrite dom_insert_L. apply (comm_L (∪)).
Qed.

Lemma dom_steps l st :
  dom (rooms st) ⊆ dom (rooms (steps l st).2)
  ∧ dom (rooms (steps l st).2) ⊆ dom (rooms st) ∪ ⋃ (created_key <$> l)
  ∧ ((steps l st).1 = Normal tt →
     dom (rooms (steps l st).2) = dom (rooms st) ∪ ⋃ (created_key <$> l)).
Proof.
  revert st. induction l as [|ev l IH]; intros st.
  - simpl. rewrite (right_id_L ∅ (∪)). done.
  - rewrite fmap_cons. simpl.
    pose proof (dom_rooms_step ev (rooms st)) as Hd.
    destruct (escapes ev st) as [e|]; cbn [fst snd step rooms].
    + rewrite Hd. split; [apply union_subseteq_l|].
      split; [|done]. apply union_mono_l, union_subseteq_l.
    + destruct (IH (step ev st)) as (H1 & H2 & H3).
      cbn [step rooms] in H1, H2, H3. rewrite Hd in H1, H2, H3.
      split; [etrans; [apply union_subseteq_l|exact H1]|].
      rewrite (assoc_L (∪)). split; [exact H2|exact H3].
Qed.

(** X11: a room is never removed from [rooms], not even when its last member
    leaves or disconnects, and only a [joinRoom] event creates one.  After
    any run the keys at the start are still keys, and every key is one of
    them or [String(roomId)] of a [joinRoom] event of the run (a name
    inherited from [Object.prototype] never becomes a key); after a run
    that gets to its end the keys are exactly those. *)
Theorem rooms_never_removed evs st :
  dom (rooms st) ⊆ dom (rooms (state_of (run evs st)))
  ∧ dom (rooms (state_of (run evs st)))
    ⊆ dom (rooms st) ∪ ⋃ (created_key <$> evs.*2)
  ∧ (completion (run evs st) = Normal tt →
     dom (rooms (state_of (run evs st)))
     = dom (rooms st) ∪ ⋃ (created_key <$> evs.*2)).
Proof.
  destruct (run_step evs st) as (tr & ->). cbn [completion state_of fst snd].
  apply dom_steps.
Qed.

Lemma entries_of_without_other sid sid' l :
  sid' ≠ sid → entries_of sid' (without sid l) = entries_of sid' l.
Proof.
  intros Hne. unfold entries_of, without. rewrite list_filter_filter.
  apply list_filter_iff. intros u. split; [by intros [? _]|].
  intros Hu. split; [done|]. congruence.
Qed.

(** X12: [leaveRoom] touches one list only.  It leaves [onlineUsers], the set
    of room keys and every other room's list as they are; in the room left
    it removes the entries of the leaving socket and keeps those of every
    other socket, in their order. *)
Theorem leaveRoom_frame sid roomId st :
  let st' := state_of (leaveRoom sid roomId st) in
  onlineUsers st' = onlineUsers st
  ∧ dom (rooms st') = dom (rooms st)
  ∧ (∀ k, k ≠ String_ roomId → rooms st' !! k = rooms st !! k)
  ∧ rooms st' !! String_ roomId = without sid <$> rooms st !! String_ roomId
  ∧ (∀ l, rooms st !! String_ roomId = Some l →
          without sid l `sublist_of` l
          ∧ ∀ sid', sid' ≠ sid → entries_of sid' (without sid l) = entries_of sid' l).
Proof.
  intros st'. subst st'.
  destruct (handle_step posix_env (LeaveRoom sid roomId) st) as (tr & Hh).
  simpl in Hh. rewrite Hh. cbn [state_of fst snd step onlineUsers rooms].
  split; [done|]. split; [apply dom_alter_L|]. split.
  { intros k Hk. simpl. by rewrite lookup_alter_ne. }
  split; [simpl; by rewrite lookup_alter_eq|].
  intros l _. split; [apply sublist_filter|].
  intros sid' Hne. by apply entries_of_without_other.
Qed.

(** X13: after [disconnect] no entry of [onlineUsers] has the socket's id,
    the entries of the other sockets are all kept, in their order, and the
    last effect of the handler is the [usersOnline] broadcast of that list,
    its only one.  No room key is removed.  A second [disconnect] of the
    same socket changes neither table. *)
Theorem disconnect_registry sid st :
  let r := disconnect sid st in
  (sid ∉ socketId <$> onlineUsers (state_of r))
  ∧ (∀ u, socketId u ≠ sid →
          u ∈ onlineUsers (state_of r) ↔ u ∈ onlineUsers st)
  ∧ onlineUsers (state_of r) `sublist_of` onlineUsers st
  ∧ usersOnline_broadcasts (trace_of r) = [onlineUsers (state_of r)]
  ∧ last (trace_of r) = Some (io_emit (usersOnline (onlineUsers (state_of r))))
  ∧ dom (rooms (state_of r)) = dom (rooms st)
  ∧ state_of (disconnect sid (state_of r)) = state_of r.
Proof.
  intros r. subst r. rewrite !disconnect_result.
  cbn [state_of trace_of fst snd onlineUsers rooms].
  split.
  { intros (u & Hu & [Hne _]%list_elem_of_filter)%list_elem_of_fmap. done. }
  split.
  { intros u Hu. rewrite list_elem_of_filter. split; [by intros [_ ?]|done]. }
  split; [apply sublist_filter|]. split.
  { unfold usersOnline_broadcasts. simpl. rewrite omap_app. simpl.
    assert (omap usersOnline_of (purge_broadcast sid <$> map_to_list (rooms st)) = [])
      as ->; [|done].
    induction (map_to_list (rooms st)) as [|kl l IH]; [done|].
    rewrite fmap_cons. simpl. exact IH. }
  split.
  { change (?a :: ?l ++ [?b]) with ((a :: l) ++ [b]). apply last_snoc. }
  split; [apply dom_fmap_L|].
  f_equal.
  - apply list_filter_filter_l. done.
  - rewrite <- map_fmap_compose. apply map_fmap_ext. intros k l _. simpl.
    apply without_non_member, entries_without.
Qed.

(** ** Disconnecting and leaving *)

Lemma leave_purge_sim sid ks st :
  (∀ k, k ∈ ks → is_Some (rooms st !! k)) →
  let a := for_each ks (purge_room sid) st in
  let b := for_each ks (λ k, leaveRoom sid (Some k)) st in
  completion a = Normal tt
  ∧ completion b = Normal tt
  ∧ state_of a = state_of b
  ∧ roomUsers_broadcasts (trace_of a) = roomUsers_broadcasts (trace_of b).
Proof.
  revert st. induction ks as [|k ks IH]; intros st Hin; [done|].
  destruct (Hin k) as [l Hl]; [left|].
  set (st1 := set_rooms (<[k := without sid l]> (rooms st)) st).
  destruct (IH st1) as (Ha & Hb & Hst & Htr).
  { intros k' Hk'. simpl. apply lookup_insert_is_Some'. right. apply Hin. by right. }
  simpl for_each. unfold bind.
  rewrite (purge_room_known _ _ _ _ Hl).
  rewrite (leaveRoom_known sid (Some k) st l Hl). simpl String_. fold st1.
  destruct (for_each ks (purge_room sid) st1) as [[ca sa] ta].
  destruct (for_each ks (λ k0, leaveRoom sid (Some k0)) st1) as [[cb sb] tb].
  cbn [completion state_of trace_of fst snd] in *.
  split; [done|]. split; [done|]. split; [done|].
  by rewrite !roomUsers_broadcasts_app, Htr.
Qed.

(** X14: a disconnection is a [leaveRoom] of every room.  Running
    [leaveRoom] for the socket over the keys of [rooms] gives the room table
    that [disconnect] gives and the same [roomUsers] broadcasts, in the same
    order; [disconnect] also drops the socket from [onlineUsers], which the
    leaves do not touch. *)
Theorem disconnect_is_leaving_every_room sid st :
  let r := for_each (room_keys st) (λ k, leaveRoom sid (Some k)) st in
  completion r = Normal tt
  ∧ rooms (state_of r) = rooms (state_of (disconnect sid st))
  ∧ roomUsers_broadcasts (trace_of r)
    = roomUsers_broadcasts (trace_of (disconnect sid st))
  ∧ onlineUsers (state_of r) = onlineUsers st.
Proof.
  intros r. subst r.
  destruct (leave_purge_sim sid (room_keys st) st) as (_ & Hb & Hst & Htr).
  { intros k (kl & -> & Hkl)%list_elem_of_fmap. destruct kl as [k l].
    exists l. by apply elem_of_map_to_list. }
  rewrite purge_all in Hst, Htr. cbn [state_of trace_of fst snd] in Hst, Htr.
  split; [done|]. rewrite <- Hst, <- Htr, disconnect_result.
  cbn [state_of trace_of fst snd rooms onlineUsers set_rooms].
  split; [done|]. split; [|done].
  rewrite roomUsers_broadcasts_skip by done.
  by rewrite roomUsers_broadcasts_app, app_nil_r.
Qed.

(** ** Broadcasts are never stale *)

Lemma broadcasts_nil_usersOnline tr :
  broadcasts tr = [] → usersOnline_broadcasts tr = [].
Proof.
  unfold broadcasts, usersOnline_broadcasts. induction tr as [|e tr IH]; [done|].
  rewrite filter_cons. destruct e as [| | | | |ev|room ev| | |]; simpl;
    try (case_decide; [done|]); try done; apply IH.
Qed.

Lemma usersOnline_broadcasts_app tr1 tr2 :
  usersOnline_broadcasts (tr1 ++ tr2)
  = usersOnline_broadcasts tr1 ++ usersOnline_broadcasts tr2.
Proof. apply omap_app. Qed.

Lemma usersOnline_broadcasts_purge sid (kvs : list (string * list RoomUser)) :
  usersOnline_broadcasts (purge_broadcast sid <$> kvs) = [].
Proof.
  unfold usersOnline_broadcasts. induction kvs as [|kl kvs IH]; [done|].
  rewrite fmap_cons. simpl. exact IH.
Qed.

Lemma run_cons_trace env ev evs st :
  match escapes ev st with
  | None =>
      trace_of (run ((env, ev) :: evs) st)
      = trace_of (handle env ev st) ++ trace_of (run evs (step ev st))
      ∧ state_of (run ((env, ev) :: evs) st) = state_of (run evs (step ev st))
  | Some _ =>
      trace_of (run ((env, ev) :: evs) st) = trace_of (handle env ev st)
      ∧ state_of (run ((env, ev) :: evs) st) = step ev st
  end.
Proof.
  rewrite run_cons. unfold bind.
  destruct (handle_step env ev st) as (tr1 & ->).
  destruct (escapes ev st); [done|].
  by destruct (run evs (step ev st)) as [[c s] t].
Qed.

Lemma state_of_handle env ev st : state_of (handle env ev st) = step ev st.
Proof. by destruct (handle_step env ev st) as (tr & ->). Qed.

(** What each handler broadcasts on [usersOnline]. *)
Lemma handle_usersOnline env ev st :
  usersOnline_broadcasts (trace_of (handle env ev st)) = []
  ∧ onlineUsers (step ev st) = onlineUsers st
  ∨ usersOnline_broadcasts (trace_of (handle env ev st)) = [onlineUsers (step ev st)].
Proof.
  rewrite <- (state_of_handle env ev st).
  destruct ev as [c|c uid|c roomId username email uid|c roomId|c roomId user text|c
                  |c|c];
    simpl handle.
  - right. by rewrite connection_result.
  - destruct (truthy uid) eqn:Hu.
    + right. destruct (first_split (λ u, bool_decide (socketId u = c)) (onlineUsers st))
        as [Hnone|(l1 & u & l2 & Hst & Hl1 & Hx)].
      * assert (∀ u, u ∈ onlineUsers st → socketId u ≠ c) as Hno.
        { intros u Hin. eapply bool_decide_eq_false_1. by apply Hnone. }
        by rewrite (newUser_absent _ _ _ Hu Hno).
      * assert (∀ v, v ∈ l1 → socketId v ≠ c) as Hl1'.
        { intros v Hin. eapply bool_decide_eq_false_1. by apply Hl1. }
        apply bool_decide_eq_true in Hx.
        by rewrite (newUser_present _ _ _ l1 u l2 Hu Hst Hl1' Hx).
    + left. by rewrite (newUser_falsy _ _ _ Hu).
  - left. destruct (usable_key (rooms st) (String_ roomId)) eqn:Hk.
    + destruct (joinRoom_result env c roomId username email uid st Hk)
        as (tr & -> & Hb). split; [|done]. cbn [trace_of snd].
      change (?a :: ?b :: ?c :: ?d :: ?e :: tr) with ([a; b; c; d; e] ++ tr).
      by rewrite usersOnline_broadcasts_app, (broadcasts_nil_usersOnline _ Hb).
    + by rewrite (joinRoom_inherited _ _ _ _ _ _ _ Hk).
  - left. destruct (rooms st !! String_ roomId) as [l|] eqn:Hl.
    + by rewrite (leaveRoom_known _ _ _ _ Hl).
    + destruct (inherited (String_ roomId)) eqn:Hi.
      * by rewrite leaveRoom_inherited by (by apply usable_key_false).
      * by rewrite (leaveRoom_unknown _ _ _ Hl Hi).
  - left. destruct (sendMessage_result env roomId user text st) as (tr & -> & Hb).
    split; [|done]. cbn [trace_of snd].
    change (?a :: tr) with ([a] ++ tr).
    by rewrite usersOnline_broadcasts_app, (broadcasts_nil_usersOnline _ Hb).
  - right. rewrite disconnect_result. cbn [trace_of state_of fst snd onlineUsers].
    change (?a :: ?l ++ ?t) with ([a] ++ l ++ t).
    by rewrite !usersOnline_broadcasts_app, usersOnline_broadcasts_purge.
  - by left.
  - by left.
Qed.

(** X15: the presence list the clients hold is never stale.  After any run,
    the last [usersOnline] broadcast of the run carries [onlineUsers] as it
    is at the end; if the run broadcast none, [onlineUsers] has not
    changed. *)
Theorem usersOnline_never_stale evs st :
  match last (usersOnline_broadcasts (trace_of (run evs st))) with
  | Some l => l = onlineUsers (state_of (run evs st))
  | None => onlineUsers (state_of (run evs st)) = onlineUsers st
  end.
Proof.
  revert st. induction evs as [|[env ev] evs IH]; intros st; [done|].
  pose proof (run_cons_trace env ev evs st) as Hrun.
  destruct (escapes ev st) as [e|]; destruct Hrun as [-> ->].
  - destruct (handle_usersOnline env ev st) as [[-> ->]| ->]; done.
  - rewrite usersOnline_broadcasts_app, last_app.
    specialize (IH (step ev st)).
    destruct (last (usersOnline_broadcasts (trace_of (run evs (step ev st)))))
      as [l|]; [done|].
    rewrite IH. destruct (handle_usersOnline env ev st) as [[-> ->]| ->]; done.
Qed.

Lemma purge_for_key sid (kvs : list (string * list RoomUser)) k :
  filter (λ b : option string * option (list RoomUser), String_ b.1 = k)
    ((λ kl, (Some kl.1, Some (without sid kl.2))) <$> kvs)
  = filter (λ b : option string * option (list RoomUser), b.1 = Some k)
      ((λ kl, (Some kl.1, Some (without sid kl.2))) <$> kvs).
Proof.
  induction kvs as [|[k' l'] kvs IH]; [done|].
  rewrite fmap_cons, !filter_cons, IH. simpl.
  destruct (decide (k' = k)) as [->|Hne].
  - by rewrite decide_True.
  - rewrite decide_False by congruence. done.
Qed.

Lemma purge_for_absent sid (kvs : list (string * list RoomUser)) k :
  k ∉ kvs.*1 →
  filter (λ b : option string * option (list RoomUser), String_ b.1 = k)
    ((λ kl, (Some kl.1, Some (without sid kl.2))) <$> kvs) = [].
Proof.
  induction kvs as [|[k' l'] kvs IH]; [done|].
  rewrite !fmap_cons, not_elem_of_cons. simpl. intros [Hne Hk].
  rewrite filter_cons. simpl. rewrite decide_False by done. by apply IH.
Qed.

Lemma roomUsers_for_disconnect sid st k :
  roomUsers_for k (trace_of (disconnect sid st))
  = match rooms st !! k with
    | Some l => [(Some k, Some (without sid l))]
    | None => []
    end.
Proof.
  unfold roomUsers_for. rewrite roomUsers_broadcasts_disconnect.
  destruct (rooms st !! k) as [l|] eqn:Hl.
  - rewrite purge_for_key. apply one_broadcast_per_key.
    + apply NoDup_fst_map_to_list.
    + by apply elem_of_map_to_list.
  - apply purge_for_absent.
    intros (kl & -> & Hkl)%list_elem_of_fmap. destruct kl as [k' l'].
    apply elem_of_map_to_list in Hkl. simpl in Hl. congruence.
Qed.

(** After one event: the last [roomUsers] broadcast about a key carries the
    list under that key; without broadcast the list has not changed. *)
Lemma handle_roomUsers env ev st k :
  match last (roomUsers_for k (trace_of (handle env ev st))) with
  | Some b => b.2 = rooms (step ev st) !! k
  | None => rooms (step ev st) !! k = rooms st !! k
  end.
Proof.
  destruct ev as [c|c uid|c roomId username email uid|c roomId|c roomId user text|c
                  |c|c];
    simpl handle; cbn [step rooms rooms_step]; [| | | | | |done|done].
  - by rewrite connection_result.
  - assert (roomUsers_broadcasts (trace_of (newUser c uid st)) = []) as Hnil.
    { destruct (handle_usersOnline env (NewUser c uid) st) as [[_ _]|_];
        destruct (truthy uid) eqn:Hu;
        try (by rewrite (newUser_falsy _ _ _ Hu));
        (destruct (first_split (λ u, bool_decide (socketId u = c)) (onlineUsers st))
           as [Hnone|(l1 & u & l2 & Hst & Hl1 & Hx)];
         [ rewrite (newUser_absent _ _ _ Hu); [done|];
           intros u Hin; eapply bool_decide_eq_false_1; by apply Hnone
         | apply bool_decide_eq_true in Hx;
           rewrite (newUser_present _ _ _ l1 u l2 Hu Hst); [done| |done];
           intros v Hin; eapply bool_decide_eq_false_1; by apply Hl1 ]). }
    unfold roomUsers_for. by rewrite Hnil.
  - destruct (usable_key (rooms st) (String_ roomId)) eqn:Hu.
    + destruct (joinRoom_result env c roomId username email uid st Hu)
        as (tr & -> & Hb).
      cbn [trace_of snd]. unfold roomUsers_for.
      change (?a :: ?b :: ?c :: ?d :: ?e :: tr) with ([a; b; c; d; e] ++ tr).
      rewrite roomUsers_broadcasts_app, (broadcasts_nil_roomUsers _ Hb).
      cbn [roomUsers_broadcasts omap list_omap roomUsers_of app].
      rewrite filter_cons. cbn [fst]. case_decide as Hk.
      * subst k. simpl. by rewrite lookup_insert_eq.
      * simpl. by rewrite lookup_insert_ne.
    + by rewrite (joinRoom_inherited _ _ _ _ _ _ _ Hu).
  - destruct (rooms st !! String_ roomId) as [l|] eqn:Hl.
    + rewrite (leaveRoom_known _ _ _ _ Hl). cbn [trace_of snd]. unfold roomUsers_for.
      cbn [roomUsers_broadcasts omap list_omap roomUsers_of].
      rewrite filter_cons. cbn [fst]. case_decide as Hk.
      * subst k. simpl. by rewrite lookup_alter_eq, Hl.
      * simpl. by rewrite lookup_alter_ne.
    + assert (rooms_step (LeaveRoom c roomId) (rooms st) !! k = rooms st !! k) as Hk.
      { simpl. destruct (decide (String_ roomId = k)) as [<-|Hne].
        - by rewrite lookup_alter_eq, Hl.
        - by rewrite lookup_alter_ne. }
      simpl in Hk.
      destruct (inherited (String_ roomId)) eqn:Hi.
      * by rewrite leaveRoom_inherited by (by apply usable_key_false).
      * by rewrite (leaveRoom_unknown _ _ _ Hl Hi).
  - destruct (sendMessage_result env roomId user text st) as (tr & -> & Hb).
    cbn [trace_of snd]. unfold roomUsers_for.
    rewrite roomUsers_broadcasts_skip by done.
    by rewrite (broadcasts_nil_roomUsers _ Hb).
  - rewrite roomUsers_for_disconnect, lookup_fmap.
    by destruct (rooms st !! k).
Qed.

(** X16: the member list the clients of a room hold is never stale.  After
    any run and for every key of [rooms]: the last [roomUsers] broadcast of
    the run about that key carries the list found under the key at the end;
    if the run broadcast none about it, the list under the key has not
    changed. *)
Theorem roomUsers_never_stale evs st k :
  match last (roomUsers_for k (trace_of (run evs st))) with
  | Some b => b.2 = rooms (state_of (run evs st)) !! k
  | None => rooms (state_of (run evs st)) !! k = rooms st !! k
  end.
Proof.
  revert st. induction evs as [|[env ev] evs IH]; intros st; [done|].
  pose proof (run_cons_trace env ev evs st) as Hrun.
  destruct (escapes ev st) as [e|]; destruct Hrun as [-> ->];
    [apply handle_roomUsers|].
  unfold roomUsers_for. rewrite roomUsers_broadcasts_app, filter_app, last_app.
  specialize (IH (step ev st)). unfold roomUsers_for in IH.
  destruct (last (filter _ (roomUsers_broadcasts (trace_of (run evs (step ev st))))))
    as [b|]; [done|].
  rewrite IH. apply handle_roomUsers.
Qed.

(** ** Identification *)

Lemma set_userId_Some sid uid l l' :
  set_userId sid uid l = Some l' →
  socketId <$> l' = socketId <$> l
  ∧ {| socketId := sid; userId := uid |} ∈ l'
  ∧ length l' = length l
  ∧ (∀ u, socketId u ≠ sid → u ∈ l' ↔ u ∈ l)
  ∧ set_userId sid uid l' = Some l'.
Proof.
  revert l'. induction l as [|v l IH]; intros l'; simpl; [done|].
  destruct (decide (socketId v = sid)) as [Hv|Hv].
  - intros [= <-]. simpl. rewrite decide_True by done.
    split; [by rewrite Hv|]. split; [left|]. split; [done|]. split; [|done].
    intros u Hu. rewrite !elem_of_cons. split; intros [->|?]; auto; done.
  - destruct (set_userId sid uid l) as [l0|] eqn:Hl0; [|done].
    intros [= <-]. destruct (IH l0 eq_refl) as (Hids & Hin & Hlen & Hoth & Hidem).
    split; [by rewrite !fmap_cons, Hids|]. split; [by right|].
    split; [simpl; by rewrite Hlen|]. split.
    + intros u Hu. rewrite !elem_of_cons, (Hoth u Hu). done.
    + simpl. rewrite decide_False by done. by rewrite Hidem.
Qed.

Lemma set_userId_None sid uid l :
  set_userId sid uid l = None → sid ∉ socketId <$> l.
Proof.
  induction l as [|v l IH]; simpl; [intros _; apply not_elem_of_nil|].
  destruct (decide (socketId v = sid)) as [Hv|Hv]; [done|].
  destruct (set_userId sid uid l); [done|]. intros _.
  apply not_elem_of_cons. split; [done|]. by apply IH.
Qed.

Lemma state_of_newUser sid uid st :
  state_of (newUser sid uid st) = step (NewUser sid uid) st.
Proof. apply (state_of_handle posix_env (NewUser sid uid)). Qed.

(** X17: [newUser] never gives a socket a second entry.  If the socket ids of
    [onlineUsers] are distinct before, they are after; at most one entry is
    added; the entries of the other sockets are untouched; and with a
    non-empty [userId] the list then holds the entry [{socketId, userId}]. *)
Theorem newUser_one_entry_per_socket sid uid st :
  NoDup (socketId <$> onlineUsers st) →
  let st' := state_of (newUser sid uid st) in
  NoDup (socketId <$> onlineUsers st')
  ∧ (length (onlineUsers st') ≤ S (length (onlineUsers st)))%nat
  ∧ (∀ u, socketId u ≠ sid → u ∈ onlineUsers st' ↔ u ∈ onlineUsers st)
  ∧ (truthy uid = true →
     {| socketId := sid; userId := String_ uid |} ∈ onlineUsers st').
Proof.
  intros Hnd st'. subst st'. rewrite state_of_newUser.
  cbn [step onlineUsers registry_step].
  destruct (truthy uid) eqn:Hu; [|split; [done|split; [lia|done]]].
  destruct (set_userId sid (String_ uid) (onlineUsers st)) as [l'|] eqn:Hset; simpl.
  - destruct (set_userId_Some _ _ _ _ Hset) as (Hids & Hin & Hlen & Hoth & _).
    split; [by rewrite Hids|]. split; [lia|]. split; [done|done].
  - apply set_userId_None in Hset.
    split; [|split; [|split]].
    + rewrite fmap_app. apply NoDup_app. split; [done|]. split.
      * intros x Hx ->%list_elem_of_singleton. done.
      * apply NoDup_singleton.
    + rewrite length_app. simpl. lia.
    + intros u Hne. rewrite elem_of_app, list_elem_of_singleton.
      split; [intros [?| ->]; done|by left].
    + intros _. apply elem_of_app. right. left.
Qed.

Lemma newUser_one_entry_per_socket_witness :
  let st' := state_of (newUser "s2" (Some "u2") busy_state) in
  NoDup (socketId <$> onlineUsers st')
  ∧ (length (onlineUsers st') ≤ S (length (onlineUsers busy_state)))%nat
  ∧ (∀ u, socketId u ≠ "s2" → u ∈ onlineUsers st' ↔ u ∈ onlineUsers busy_state)
  ∧ (truthy (Some "u2") = true →
     {| socketId := "s2"; userId := String_ (Some "u2") |} ∈ onlineUsers st').
Proof.
  apply (newUser_one_entry_per_socket "s2" (Some "u2") busy_state).
  compute_done.
Defined.

(** X18: identifying twice is identifying once.  A second [newUser] with the
    same [userId] on the same socket leaves both tables as the first one
    left them. *)
Theorem newUser_idempotent sid uid st :
  state_of (newUser sid uid (state_of (newUser sid uid st)))
  = state_of (newUser sid uid st).
Proof.
  rewrite !state_of_newUser. unfold step. cbn [onlineUsers rooms rooms_step].
  f_equal. cbn [registry_step].
  destruct (truthy uid) eqn:Hu; [|done].
  destruct (set_userId sid (String_ uid) (onlineUsers st)) as [l'|] eqn:Hset; simpl.
  - destruct (set_userId_Some _ _ _ _ Hset) as (_ & _ & _ & _ & ->). done.
  - rewrite set_userId_first; [done| |done].
    intros v Hv Heq. apply (set_userId_None _ _ _ Hset).
    apply list_elem_of_fmap. by exists v.
Qed.

(** X19: connecting and then identifying.  For a socket id not yet in
    [onlineUsers], [connection] followed by [newUser] with a non-empty
    [userId] ends with the former list followed by the one entry
    [{socketId, userId}]; the two [usersOnline] broadcasts carry the list
    with the anonymous entry, then the list with the identified one. *)
Theorem connection_then_newUser env env' sid uid st :
  sid ∉ socketId <$> onlineUsers st →
  uid ≠ EmptyString →
  let r := run [(env, Connection sid); (env', NewUser sid (Some uid))] st in
  completion r = Normal tt
  ∧ onlineUsers (state_of r)
    = onlineUsers st ++ [{| socketId := sid; userId := uid |}]
  ∧ rooms (state_of r) = rooms st
  ∧ usersOnline_broadcasts (trace_of r)
    = [ onlineUsers st ++ [{| socketId := sid; userId := EmptyString |}];
        onlineUsers st ++ [{| socketId := sid; userId := uid |}] ].
Proof.
  intros Hsid Huid r. subst r.
  assert (truthy (Some uid) = true) as Hu.
  { simpl. by rewrite (proj2 (String.eqb_neq _ _)) by done. }
  assert (∀ v, v ∈ onlineUsers st → socketId v ≠ sid) as Hno.
  { intros v Hv Heq. apply Hsid, list_elem_of_fmap. by exists v. }
  unfold run. simpl for_each. unfold bind. rewrite connection_result.
  cbv zeta.
  rewrite (newUser_present sid (Some uid) _ (onlineUsers st)
             {| socketId := sid; userId := EmptyString |} [] Hu); try done.
Qed.

Lemma connection_then_newUser_witness :
  let r := run [(posix_env, Connection "s3"); (failing_env, NewUser "s3" (Some "u3"))]
             busy_state in
  completion r = Normal tt
  ∧ onlineUsers (state_of r)
    = onlineUsers busy_state ++ [{| socketId := "s3"; userId := "u3" |}]
  ∧ rooms (state_of r) = rooms busy_state
  ∧ usersOnline_broadcasts (trace_of r)
    = [ onlineUsers busy_state ++ [{| socketId := "s3"; userId := EmptyString |}];
        onlineUsers busy_state ++ [{| socketId := "s3"; userId := "u3" |}] ].
Proof.
  apply (connection_then_newUser posix_env failing_env "s3" "u3" busy_state).
  - compute_done.
  - discriminate.
Defined.

(** ** The two revisions of [joinRoom] and [sendMessage] *)

Lemma joinRoom_v1_result sid roomId username st :
  usable_key (rooms st) (String_ roomId) = true →
  let new := default [] (rooms st !! String_ roomId)
             ++ [{| member_socketId := sid; username := username |}] in
  joinRoom_v1 sid roomId username st =
    (Normal tt,
     set_rooms (<[String_ roomId := new]> (rooms st)) st,
     [socket_join sid roomId;
      socket_data sid "username" username;
      console_log
        ["User " +:+ String_ username +:+ " joined room " +:+ String_ roomId];
      io_to_emit roomId (roomUsers (Some new))]).
Proof.
  intros Hu new. subst new. unfold joinRoom_v1. unfold_M. unfold usable_key in Hu.
  destruct (rooms st !! String_ roomId) as [l|] eqn:Hl; simpl.
  - rewrite Hl. simpl. by rewrite lookup_insert_eq.
  - apply negb_true_iff in Hu. rewrite Hu. simpl.
    rewrite lookup_insert_eq. simpl. rewrite lookup_insert_eq.
    by rewrite insert_insert_eq.
Qed.

(** The earlier revision has no [try]: the [TypeError] escapes. *)
Lemma joinRoom_v1_inherited sid roomId username st :
  usable_key (rooms st) (String_ roomId) = false →
  joinRoom_v1 sid roomId username st =
    (Throw push_TypeError, st,
     [socket_join sid roomId; socket_data sid "username" username]).
Proof.
  intros [H Hi]%usable_key_false. unfold joinRoom_v1. unfold_M.
  rewrite H, Hi. simpl. by rewrite H.
Qed.

(** X20: the current [joinRoom] does to the tables and to the sockets what
    the earlier revision did: the same tables and the same broadcasts.  When
    the member list can be updated (the room id is a key of the table
    already, or it is not a name inherited from [Object.prototype]) both
    complete normally and the current one only adds effects beside those of
    the earlier one: the write of [socket.data.email] and, after the
    broadcast, the request to the backend and its warning.  Otherwise
    neither stores or broadcasts anything; the earlier revision lets the
    [TypeError] escape, the current one logs it. *)
Theorem joinRoom_revisions_agree env sid roomId username email uid st :
  let old := joinRoom_v1 sid roomId username st in
  let new := joinRoom env sid roomId username email uid st in
  completion new = Normal tt
  ∧ state_of new = state_of old
  ∧ broadcasts (trace_of new) = broadcasts (trace_of old)
  ∧ (usable_key (rooms st) (String_ roomId) = true →
     completion old = Normal tt
     ∧ ∃ side,
         trace_of new
         = take 2 (trace_of old) ++ [socket_data sid "email" email]
           ++ drop 2 (trace_of old) ++ side
         ∧ broadcasts side = []
         ∧ roomUsers_broadcasts side = [])
  ∧ (usable_key (rooms st) (String_ roomId) = false →
     completion old = Throw push_TypeError
     ∧ state_of old = st
     ∧ broadcasts (trace_of old) = []
     ∧ trace_of new
       = trace_of old
         ++ [socket_data sid "email" email;
             console_warn ["[chat] joinRoom handler error";
                           what_of push_TypeError]]).
Proof.
  intros old new. subst old new.
  destruct (usable_key (rooms st) (String_ roomId)) eqn:Hu.
  - rewrite (joinRoom_v1_result _ _ _ _ Hu).
    destruct (joinRoom_result env sid roomId username email uid st Hu)
      as (tr & -> & Hb).
    cbn [completion state_of trace_of fst snd take drop app].
    split; [done|]. split; [done|]. split.
    { change (?a :: ?b :: ?c :: ?d :: ?e :: tr) with ([a; b; c; d; e] ++ tr).
      by rewrite broadcasts_app, Hb. }
    split; [|done]. intros _. split; [done|].
    exists tr. split; [done|]. split; [done|]. by apply broadcasts_nil_roomUsers.
  - rewrite (joinRoom_v1_inherited _ _ _ _ Hu), (joinRoom_inherited _ _ _ _ _ _ _ Hu).
    by repeat split.
Qed.

(** X21: the current [sendMessage] delivers exactly what the earlier
    revision delivered, first, and then only works on the transcript: its
    trace is the earlier one followed by file-system calls and warnings, and
    neither revision changes a table. *)
Theorem sendMessage_revisions_agree env roomId author body st :
  let old := sendMessage_v1 env roomId author body st in
  let new := sendMessage env roomId author body st in
  completion old = Normal tt
  ∧ completion new = Normal tt
  ∧ state_of old = st
  ∧ state_of new = st
  ∧ broadcasts (trace_of new) = trace_of old
  ∧ ∃ side,
      trace_of new = trace_of old ++ side
      ∧ broadcasts side = []
      ∧ (existsSync env (transcripts_dir env) = true
         ∨ mkdirSync_error env (transcripts_dir env) = None →
         length (appendFile_calls side) = 1%nat).
Proof.
  intros old new. subst old new.
  destruct (sendMessage_result env roomId author body st) as (tr & Hres & Hb).
  split; [done|]. split; [by rewrite Hres|]. split; [done|].
  split; [by rewrite Hres|]. split.
  { rewrite Hres. cbn [trace_of snd]. by rewrite broadcasts_cons, Hb. }
  exists tr. split; [by rewrite Hres|]. split; [done|].
  intros Hdir.
  pose proof (appendFile_calls_transcript env roomId author body st Hdir) as Happ.
  rewrite Hres in Happ. apply (f_equal length) in Happ. exact Happ.
Qed.

(** ** Sockets do not touch each other's entries *)

Lemma set_userId_other sid c uid l l' :
  c ≠ sid →
  set_userId c uid l = Some l' →
  registered_as sid l' = registered_as sid l.
Proof.
  intros Hne. unfold registered_as. revert l'.
  induction l as [|v l IH]; intros l'; simpl; [done|].
  destruct (decide (socketId v = c)) as [Hv|Hv].
  - intros [= <-]. rewrite !filter_cons. simpl.
    rewrite decide_False by done. rewrite decide_False by congruence. done.
  - destruct (set_userId c uid l) as [l0|]; [|done]. intros [= <-].
    rewrite !filter_cons. by rewrite (IH l0 eq_refl).
Qed.

Lemma registry_step_other sid ev l :
  socket_of ev ≠ sid →
  registered_as sid (registry_step ev l) = registered_as sid l.
Proof.
  unfold registered_as.
  destruct ev as [c|c uid|c roomId username email uid|c roomId|c roomId user text|c
                  |c|c];
    simpl; intros Hne; try done.
  - rewrite filter_app, filter_cons. simpl. rewrite decide_False by done.
    by rewrite filter_nil, app_nil_r.
  - destruct (truthy uid); [|done].
    destruct (set_userId c (String_ uid) l) as [l'|] eqn:Hset; simpl.
    + by apply (set_userId_other sid c (String_ uid)).
    + rewrite filter_app, filter_cons. simpl. rewrite decide_False by done.
      by rewrite filter_nil, app_nil_r.
  - apply list_filter_filter_l. congruence.
Qed.

Lemma rooms_step_other sid ev (m : gmap string (list RoomUser)) k :
  socket_of ev ≠ sid →
  entries_of sid (default [] (rooms_step ev m !! k))
  = entries_of sid (default [] (m !! k)).
Proof.
  destruct ev as [c|c uid|c roomId username email uid|c roomId|c roomId user text|c
                  |c|c];
    simpl; intros Hne; try done.
  - destruct (usable_key m (String_ roomId)); [|done].
    destruct (decide (k = String_ roomId)) as [->|Hk].
    + rewrite lookup_insert_eq. simpl. rewrite entries_of_app.
      unfold entries_of at 2. rewrite filter_cons. simpl.
      rewrite decide_False by done. by rewrite filter_nil, app_nil_r.
    + by rewrite lookup_insert_ne.
  - destruct (decide (k = String_ roomId)) as [->|Hk].
    + rewrite lookup_alter_eq. destruct (m !! String_ roomId); [|done].
      simpl. by apply entries_of_without_other.
    + by rewrite lookup_alter_ne.
  - rewrite lookup_fmap. destruct (m !! k); [|done].
    simpl. by apply entries_of_without_other.
Qed.

(** X22: no event touches the entries of another socket.  Over any run in
    which no event comes from socket [sid], the entries of [sid] in
    [onlineUsers] and in every room's list stay exactly as they were:
    none added, none removed, none altered. *)
Theorem other_sockets_entries_untouched sid evs st :
  Forall (λ ev, socket_of ev ≠ sid) evs.*2 →
  let st' := state_of (run evs st) in
  registered_as sid (onlineUsers st') = registered_as sid (onlineUsers st)
  ∧ ∀ k, entries_of sid (default [] (rooms st' !! k))
         = entries_of sid (default [] (rooms st !! k)).
Proof.
  intros Hall st'. subst st'.
  destruct (run_step evs st) as (tr & ->). cbn [state_of fst snd].
  revert st. induction Hall as [|ev l Hev _ IH]; intros st; [done|].
  simpl. destruct (escapes ev st) as [e|]; cbn [snd].
  - split.
    + cbn [step onlineUsers]. by apply registry_step_other.
    + intros k. cbn [step rooms]. by apply rooms_step_other.
  - destruct (IH (step ev st)) as [Hreg Hrooms]. split.
    + rewrite Hreg. cbn [step onlineUsers]. by apply registry_step_other.
    + intros k. rewrite Hrooms. cbn [step rooms]. by apply rooms_step_other.
Qed.

Lemma other_sockets_entries_untouched_witness :
  let st' := state_of (run [ (posix_env, NewUser "s2" (Some "u2"));
                             (posix_env, JoinRoom "s2" (Some "retro") None None None);
                             (failing_env, LeaveRoom "s2" (Some "standup"));
                             (posix_env, Disconnect "s3") ] busy_state) in
  registered_as "s1" (onlineUsers st') = registered_as "s1" (onlineUsers busy_state)
  ∧ ∀ k, entries_of "s1" (default [] (rooms st' !! k))
         = entries_of "s1" (default [] (rooms busy_state !! k)).
Proof.
  apply (other_sockets_entries_untouched "s1"
           [ (posix_env, NewUser "s2" (Some "u2"));
             (posix_env, JoinRoom "s2" (Some "retro") None None None);
             (failing_env, LeaveRoom "s2" (Some "standup"));
             (posix_env, Disconnect "s3") ] busy_state).
  repeat constructor; discriminate.
Defined.

(** X23: a join without room id is filed under the key ["undefined"].  It
    gives the same room table as a join that names the room ["undefined"],
    so the two share one member list; but the broadcast of the first goes to
    the transport room [undefined] and that of the second to the room named
    ["undefined"]. *)
Theorem joinRoom_without_roomId env sid username email uid st :
  let r := joinRoom env sid None username email uid st in
  let r' := joinRoom env sid (Some "undefined") username email uid st in
  state_of r = state_of r'
  ∧ (∃ l, rooms (state_of r) !! "undefined" = Some l
          ∧ roomUsers_broadcasts (trace_of r) = [(None, Some l)]
          ∧ roomUsers_broadcasts (trace_of r') = [(Some "undefined", Some l)]).
Proof.
  intros r r'. subst r r'.
  assert (usable_key (rooms st) "undefined" = true) as Hu
    by by apply usable_key_fresh.
  destruct (joinRoom_result env sid None username email uid st Hu)
    as (tr & -> & Hb).
  destruct (joinRoom_result env sid (Some "undefined") username email uid st Hu)
    as (tr' & -> & Hb').
  cbn [state_of trace_of fst snd String_]. split; [done|].
  eexists. split; [apply lookup_insert_eq|].
  split.
  - change (?a :: ?b :: ?c :: ?d :: ?e :: tr) with ([a; b; c; d; e] ++ tr).
    by rewrite roomUsers_broadcasts_app, (broadcasts_nil_roomUsers _ Hb).
  - change (?a :: ?b :: ?c :: ?d :: ?e :: tr') with ([a; b; c; d; e] ++ tr').
    by rewrite roomUsers_broadcasts_app, (broadcasts_nil_roomUsers _ Hb').
Qed.

(** ** Members only come from joins *)

Lemma member_of_without sid c l : member_of sid (without c l) → member_of sid l ∧ sid ≠ c.
Proof.
  unfold member_of, without.
  intros (u & -> & [Hne Hu]%list_elem_of_filter)%list_elem_of_fmap.
  split; [|done]. apply list_elem_of_fmap. by exists u.
Qed.

(** A member after an event was one before, unless the event is its join;
    and it is not the socket that disconnects. *)
Lemma rooms_step_member ev (m : gmap string (list RoomUser)) sid k l :
  rooms_step ev m !! k = Some l →
  member_of sid l →
  (∃ l0, m !! k = Some l0 ∧ member_of sid l0 ∧ ev ≠ Disconnect sid)
  ∨ joins sid k ev.
Proof.
  destruct ev as [c|c uid|c roomId username email uid|c roomId|c roomId user text|c
                  |c|c];
    simpl; intros Hl Hm; try (left; by exists l).
  - destruct (usable_key m (String_ roomId)); [|left; by exists l].
    destruct (decide (k = String_ roomId)) as [->|Hk].
    + rewrite lookup_insert_eq in Hl. injection Hl as <-.
      unfold member_of in Hm. rewrite fmap_app, elem_of_app in Hm.
      destruct Hm as [Hm|Hm].
      * left. destruct (m !! String_ roomId) as [l0|] eqn:Hl0.
        -- by exists l0.
        -- by apply not_elem_of_nil in Hm.
      * apply list_elem_of_singleton in Hm. simpl in Hm. subst c.
        right. by exists roomId, username, email, uid.
    + rewrite lookup_insert_ne in Hl by done. left. by exists l.
  - destruct (decide (k = String_ roomId)) as [->|Hk].
    + rewrite lookup_alter_eq in Hl.
      destruct (m !! String_ roomId) as [l0|] eqn:Hl0; [|done].
      injection Hl as <-. apply member_of_without in Hm as [Hm _].
      left. by exists l0.
    + rewrite lookup_alter_ne in Hl by done. left. by exists l.
  - rewrite lookup_fmap in Hl. destruct (m !! k) as [l0|] eqn:Hl0; [|done].
    injection Hl as <-. apply member_of_without in Hm as [Hm Hne].
    left. exists l0. split; [done|]. split; [done|]. congruence.
Qed.

Lemma foldl_step_member (evs : list Inbound) st sid k l :
  rooms (foldl (λ s ev, step ev s) st evs) !! k = Some l →
  member_of sid l →
  (∃ l0, rooms st !! k = Some l0 ∧ member_of sid l0 ∧ Disconnect sid ∉ evs)
  ∨ ∃ pre ev post,
      evs = pre ++ ev :: post ∧ joins sid k ev ∧ Disconnect sid ∉ post.
Proof.
  revert st. induction evs as [|ev evs IH]; intros st Hl Hm.
  - left. exists l. split; [done|]. split; [done|]. apply not_elem_of_nil.
  - simpl in Hl. destruct (IH _ Hl Hm)
      as [(l1 & Hl1 & Hm1 & Hno)|(pre & ev' & post & -> & Hj & Hno)].
    + destruct (rooms_step_member ev (rooms st) sid k l1 Hl1 Hm1)
        as [(l0 & Hl0 & Hm0 & Hne)|Hj].
      * left. exists l0. split; [done|]. split; [done|].
        apply not_elem_of_cons. by split.
      * right. by exists [], ev, evs.
    + right. by exists (ev :: pre), ev', post.
Qed.

(** X24: room lists hold no ghosts.  Take any sequence of events from the
    start of the process in which every [joinRoom] is followed, later on, by
    the [disconnect] of the joining socket.  If the run gets to its end (no
    handler lets an exception escape on the way), every room's member list
    is empty then (the keys themselves remain). *)
Theorem rooms_empty_after_disconnects evs :
  (∀ pre ev post sid k,
     evs.*2 = pre ++ ev :: post → joins sid k ev → Disconnect sid ∈ post) →
  completion (run evs initial) = Normal tt →
  map_Forall (λ _ l, l = []) (rooms (state_of (run evs initial))).
Proof.
  intros Hall Hc k l Hl.
  destruct (run_step evs initial) as (tr & Hrun). rewrite Hrun in Hl, Hc.
  cbn [completion state_of fst snd] in Hl, Hc.
  rewrite (steps_normal _ _ Hc) in Hl.
  destruct l as [|u l]; [done|]. exfalso.
  destruct (foldl_step_member evs.*2 initial (member_socketId u) k (u :: l) Hl)
    as [(l0 & Hl0 & _)|(pre & ev & post & Hevs & Hj & Hno)].
  - unfold member_of. rewrite fmap_cons. left.
  - cbn [initial rooms] in Hl0. by rewrite lookup_empty in Hl0.
  - by apply Hno, (Hall pre ev post _ k).
Qed.

Lemma rooms_empty_after_disconnects_witness :
  map_Forall (λ _ l, l = [])
    (rooms (state_of (run [ (posix_env, Connection "s1");
                            (posix_env, JoinRoom "s1" (Some "r1") (Some "Alice") None None);
                            (posix_env, JoinRoom "s1" (Some "r1") (Some "Alice") None None);
                            (posix_env, JoinRoom "s2" None (Some "Bob") None None);
                            (posix_env, Disconnect "s2");
                            (failing_env, Disconnect "s1") ] initial))).
Proof.
  apply (rooms_empty_after_disconnects
           [ (posix_env, Connection "s1");
             (posix_env, JoinRoom "s1" (Some "r1") (Some "Alice") None None);
             (posix_env, JoinRoom "s1" (Some "r1") (Some "Alice") None None);
             (posix_env, JoinRoom "s2" None (Some "Bob") None None);
             (posix_env, Disconnect "s2");
             (failing_env, Disconnect "s1") ]).
  - intros pre ev post sid k Hevs (roomId & username & email & uid & -> & _).
    destruct pre as [|p0 [|p1 [|p2 [|p3 [|p4 [|p5 [|p6 pre]]]]]]];
      simplify_eq/=; repeat (first [by left | right]).
  - reflexivity.
Defined.

(** ** Subscription before broadcast *)

(** X25: whenever [joinRoom] broadcasts (the member list can be updated: the
    room id is a key of the table already, or it is not a name inherited
    from [Object.prototype]), it has subscribed the socket to the room
    before, and the list broadcast holds the new entry; whenever [leaveRoom]
    broadcasts (the room is a key of the table), it has unsubscribed the
    socket before, and the list broadcast holds no entry of the socket. *)
Theorem subscription_precedes_broadcast env sid roomId username email uid st :
  (usable_key (rooms st) (String_ roomId) = true →
   ∃ l post,
     trace_of (joinRoom env sid roomId username email uid st)
     = socket_join sid roomId
       :: socket_data sid "username" username
       :: socket_data sid "email" email
       :: console_log
            ["User " +:+ String_ username +:+ " joined room " +:+ String_ roomId]
       :: io_to_emit roomId (roomUsers (Some l)) :: post
     ∧ {| member_socketId := sid; username := username |} ∈ l
     ∧ roomUsers_broadcasts post = [])
  ∧ (usable_key (rooms st) (String_ roomId) = false →
     broadcasts (trace_of (joinRoom env sid roomId username email uid st)) = []
     ∧ broadcasts (trace_of (leaveRoom sid roomId st)) = []
     ∧ head (trace_of (joinRoom env sid roomId username email uid st))
       = Some (socket_join sid roomId)
     ∧ head (trace_of (leaveRoom sid roomId st)) = Some (socket_leave sid roomId))
  ∧ (∀ l0, rooms st !! String_ roomId = Some l0 →
       ∃ l post,
         trace_of (leaveRoom sid roomId st)
         = socket_leave sid roomId :: io_to_emit roomId (roomUsers (Some l)) :: post
         ∧ ¬ member_of sid l
         ∧ roomUsers_broadcasts post = [])
  ∧ (rooms st !! String_ roomId = None →
     broadcasts (trace_of (leaveRoom sid roomId st)) = []).
Proof.
  split; [|split; [|split]].
  - intros Hu.
    destruct (joinRoom_result env sid roomId username email uid st Hu)
      as (tr & -> & Hb).
    eexists _, tr. split; [done|]. split.
    + apply elem_of_app. right. left.
    + by apply broadcasts_nil_roomUsers.
  - intros Hu.
    by rewrite (joinRoom_inherited _ _ _ _ _ _ _ Hu), (leaveRoom_inherited _ _ _ Hu).
  - intros l0 Hl0. rewrite (leaveRoom_known _ _ _ _ Hl0).
    eexists _, _. split; [done|]. split; [|done].
    apply entries_of_nil_iff, entries_without.
  - intros Hl. destruct (inherited (String_ roomId)) eqn:Hi.
    + by rewrite leaveRoom_inherited by (by apply usable_key_false).
    + by rewrite (leaveRoom_unknown _ _ _ Hl Hi).
Qed.

(** ** The first revision of [newUser] against the current one *)

Lemma existsb_userId uid (l : list OnlineUser) :
  existsb (λ user, bool_decide (userId user = uid)) l = true
  ↔ uid ∈ userId <$> l.
Proof.
  rewrite existsb_exists, list_elem_of_fmap. split.
  - intros (u & Hu%list_elem_of_In & Heq%bool_decide_eq_true). by exists u.
  - intros (u & -> & Hu). exists u. split; [by apply list_elem_of_In|].
    by apply bool_decide_eq_true.
Qed.

Lemma insert_middle {A} (l1 : list A) x u l2 :
  <[length l1 := x]> (l1 ++ u :: l2) = l1 ++ x :: l2.
Proof. induction l1 as [|v l1 IH]; [done|]. simpl. by rewrite IH. Qed.

Lemma newUser_v0_present sid uid st l1 u l2 :
  truthy uid = true →
  onlineUsers st = l1 ++ u :: l2 →
  (∀ v, v ∈ l1 → socketId v ≠ sid) →
  socketId u = sid →
  let l := l1 ++ {| socketId := sid; userId := String_ uid |} :: l2 in
  newUser_v0 sid uid st = (Normal tt, set_onlineUsers l st, [io_emit (usersOnline l)]).
Proof.
  intros Hu Hst Hl1 Hsid l. subst l. unfold newUser_v0. rewrite Hu.
  change (negb true) with false. cbv beta iota. unfold_M.
  unfold findIndex. rewrite Hst.
  rewrite findIndex_from_first;
    [|intros v Hv; apply bool_decide_eq_false; by apply Hl1
     |by apply bool_decide_eq_true].
  rewrite Z.add_0_l, Nat2Z.id.
  rewrite bool_decide_eq_true_2 by lia.
  rewrite insert_middle. reflexivity.
Qed.

Lemma newUser_v0_absent sid uid st :
  truthy uid = true →
  (∀ u, u ∈ onlineUsers st → socketId u ≠ sid) →
  let l :=
    if existsb (λ user, bool_decide (userId user = String_ uid)) (onlineUsers st)
    then (λ user, if bool_decide (userId user = String_ uid)
                  then {| socketId := sid; userId := String_ uid |}
                  else user) <$> onlineUsers st
    else onlineUsers st ++ [{| socketId := sid; userId := String_ uid |}] in
  newUser_v0 sid uid st = (Normal tt, set_onlineUsers l st, [io_emit (usersOnline l)]).
Proof.
  intros Hu Hno l. subst l. unfold newUser_v0. rewrite Hu.
  change (negb true) with false. cbv beta iota. unfold_M.
  unfold findIndex. rewrite findIndex_from_none.
  2:{ intros u Hin. apply bool_decide_eq_false. by apply Hno. }
  rewrite bool_decide_eq_false_2 by (intros H; by apply H).
  destruct (existsb _ (onlineUsers st)); reflexivity.
Qed.

(** X26: how the two revisions of [newUser] treat a user id.  They do the
    same (tables and trace) whenever the socket already has an entry, or no
    entry holds the user id.  They differ when the socket has no entry and
    the user id is already held: the first revision then adds nothing and
    hands every entry holding the user id over to the socket, while the
    current one appends a further entry, so that the user id is listed once
    more. *)
Theorem newUser_revisions sid uid st :
  truthy uid = true →
  let old := newUser_v0 sid uid st in
  let new := newUser sid uid st in
  (sid ∈ socketId <$> onlineUsers st ∨ String_ uid ∉ userId <$> onlineUsers st →
   old = new)
  ∧ (sid ∉ socketId <$> onlineUsers st →
     String_ uid ∈ userId <$> onlineUsers st →
     completion old = Normal tt
     ∧ length (onlineUsers (state_of old)) = length (onlineUsers st)
     ∧ length (onlineUsers (state_of new)) = S (length (onlineUsers st))
     ∧ sid ∈ socketId <$> onlineUsers (state_of old)
     ∧ (∀ u, u ∈ onlineUsers (state_of old) →
             userId u = String_ uid → socketId u = sid)
     ∧ (∀ u, u ∈ onlineUsers st → userId u ≠ String_ uid →
             u ∈ onlineUsers (state_of old))
     ∧ usersOnline_broadcasts (trace_of old) = [onlineUsers (state_of old)]).
Proof.
  intros Hu old new. subst old new. split.
  - intros Hcase.
    destruct (first_split (λ u, bool_decide (socketId u = sid)) (onlineUsers st))
      as [Hnone|(l1 & u & l2 & Hst & Hl1 & Hx)].
    + assert (∀ u, u ∈ onlineUsers st → socketId u ≠ sid) as Hno.
      { intros u Hin. eapply bool_decide_eq_false_1. by apply Hnone. }
      rewrite (newUser_absent _ _ _ Hu Hno), (newUser_v0_absent _ _ _ Hu Hno).
      destruct Hcase as [Hin|Hnot].
      * apply list_elem_of_fmap in Hin as (u & -> & Hin). by destruct (Hno u Hin).
      * destruct (existsb _ (onlineUsers st)) eqn:Hex; [|done].
        by apply existsb_userId in Hex.
    + assert (∀ v, v ∈ l1 → socketId v ≠ sid) as Hl1'.
      { intros v Hin. eapply bool_decide_eq_false_1. by apply Hl1. }
      apply bool_decide_eq_true in Hx.
      by rewrite (newUser_present _ _ _ l1 u l2 Hu Hst Hl1' Hx),
                 (newUser_v0_present _ _ _ l1 u l2 Hu Hst Hl1' Hx).
  - intros Hsid Huid.
    assert (∀ u, u ∈ onlineUsers st → socketId u ≠ sid) as Hno.
    { intros v Hv Heq. apply Hsid, list_elem_of_fmap. by exists v. }
    rewrite (newUser_absent _ _ _ Hu Hno), (newUser_v0_absent _ _ _ Hu Hno).
    rewrite (proj2 (existsb_userId _ _) Huid).
    cbn [completion state_of trace_of fst snd onlineUsers set_onlineUsers].
    split; [done|]. split; [by rewrite length_fmap|].
    split; [rewrite length_app; simpl; lia|]. split.
    { apply list_elem_of_fmap in Huid as (u & Hu' & Hin).
      apply list_elem_of_fmap.
      exists {| socketId := sid; userId := String_ uid |}. split; [done|].
      apply list_elem_of_fmap. exists u. split; [|done].
      by rewrite bool_decide_eq_true_2. }
    split.
    { intros u (v & -> & Hv)%list_elem_of_fmap.
      destruct (bool_decide (userId v = String_ uid)) eqn:Hb; [done|].
      apply bool_decide_eq_false in Hb. done. }
    split; [|done].
    intros u Hin Hne. apply list_elem_of_fmap. exists u. split; [|done].
    by rewrite bool_decide_eq_false_2.
Qed.

Lemma newUser_revisions_witness :
  let old := newUser_v0 "s3" (Some "u1") busy_state in
  let new := newUser "s3" (Some "u1") busy_state in
  ("s3" ∈ socketId <$> onlineUsers busy_state
   ∨ String_ (Some "u1") ∉ userId <$> onlineUsers busy_state →
   old = new)
  ∧ ("s3" ∉ socketId <$> onlineUsers busy_state →
     String_ (Some "u1") ∈ userId <$> onlineUsers busy_state →
     completion old = Normal tt
     ∧ length (onlineUsers (state_of old)) = length (onlineUsers busy_state)
     ∧ length (onlineUsers (state_of new)) = S (length (onlineUsers busy_state))
     ∧ "s3" ∈ socketId <$> onlineUsers (state_of old)
     ∧ (∀ u, u ∈ onlineUsers (state_of old) →
             userId u = String_ (Some "u1") → socketId u = "s3")
     ∧ (∀ u, u ∈ onlineUsers busy_state → userId u ≠ String_ (Some "u1") →
             u ∈ onlineUsers (state_of old))
     ∧ usersOnline_broadcasts (trace_of old) = [onlineUsers (state_of old)]).
Proof.
  apply (newUser_revisions "s3" (Some "u1") busy_state). reflexivity.
Defined.

(** ** Room ids that name a property of [Object.prototype] *)

Lemma created_key_plain ev k : k ∈ created_key ev → inherited k = false.
Proof.
  destruct ev as [c|c uid|c roomId username email uid|c roomId|c roomId user text|c
                  |c|c];
    simpl; try (by intros ?%not_elem_of_empty).
  destruct (inherited (String_ roomId)) eqn:Hi; [by intros ?%not_elem_of_empty|].
  by intros ->%elem_of_singleton.
Qed.

(** X28: a name inherited from [Object.prototype] is never a room.  On a
    table none of whose keys is such a name, for a room id that is one:
    [joinRoom] subscribes the socket and writes [socket.data], then only logs
    the [TypeError] of [push]: it stores nothing, broadcasts nothing and
    sends no request; the earlier revision of [joinRoom] lets the error
    escape; [leaveRoom] unsubscribes the socket and lets the [TypeError] of
    [filter] escape, without log.  None of them changes a table, and no run
    makes such a name a key of [rooms]. *)
Theorem inherited_names_are_no_rooms env sid roomId username email uid evs st :
  inherited (String_ roomId) = true →
  (∀ k, k ∈ dom (rooms st) → inherited k = false) →
  joinRoom env sid roomId username email uid st
  = (Normal tt, st,
     [ socket_join sid roomId;
       socket_data sid "username" username;
       socket_data sid "email" email;
       console_warn ["[chat] joinRoom handler error";
                     "TypeError: rooms[roomId].push is not a function"] ])
  ∧ joinRoom_v1 sid roomId username st
    = (Throw (Error "TypeError: rooms[roomId].push is not a function"), st,
       [ socket_join sid roomId; socket_data sid "username" username ])
  ∧ leaveRoom sid roomId st
    = (Throw (Error "TypeError: rooms[roomId].filter is not a function"), st,
       [ socket_leave sid roomId ])
  ∧ (∀ k, k ∈ dom (rooms (state_of (run evs st))) → inherited k = false).
Proof.
  intros Hi Hdom.
  assert (usable_key (rooms st) (String_ roomId) = false) as Hu.
  { apply usable_key_false. split; [|done].
    destruct (rooms st !! String_ roomId) as [l|] eqn:Hl; [|done].
    assert (String_ roomId ∈ dom (rooms st)) as Hin
      by (apply elem_of_dom; by eexists).
    apply Hdom in Hin. congruence. }
  split; [by apply joinRoom_inherited|].
  split; [by apply joinRoom_v1_inherited|].
  split; [by apply leaveRoom_inherited|].
  intros k Hk.
  destruct (run_step evs st) as (tr & Hrun). rewrite Hrun in Hk.
  cbn [state_of fst snd] in Hk.
  destruct (dom_steps evs.*2 st) as (_ & Hsub & _).
  apply Hsub, elem_of_union in Hk as [Hk|Hk]; [by apply Hdom|].
  apply elem_of_union_list in Hk as (X & HX & Hk).
  apply list_elem_of_fmap in HX as (ev & -> & _).
  by apply (created_key_plain ev).
Qed.

Lemma inherited_names_are_no_rooms_witness :
  let evs := [ (posix_env, JoinRoom "A" (Some "r1") (Some "Alice") None None);
               (posix_env, JoinRoom "A" (Some "hasOwnProperty") (Some "Alice")
                             (Some "a@x.org") None);
               (posix_env, LeaveRoom "A" (Some "valueOf")) ] in
  joinRoom posix_env "A" (Some "toString") (Some "Alice") (Some "a@x.org") None initial
  = (Normal tt, initial,
     [ socket_join "A" (Some "toString");
       socket_data "A" "username" (Some "Alice");
       socket_data "A" "email" (Some "a@x.org");
       console_warn ["[chat] joinRoom handler error";
                     "TypeError: rooms[roomId].push is not a function"] ])
  ∧ joinRoom_v1 "A" (Some "toString") (Some "Alice") initial
    = (Throw (Error "TypeError: rooms[roomId].push is not a function"), initial,
       [ socket_join "A" (Some "toString");
         socket_data "A" "username" (Some "Alice") ])
  ∧ leaveRoom "A" (Some "toString") initial
    = (Throw (Error "TypeError: rooms[roomId].filter is not a function"), initial,
       [ socket_leave "A" (Some "toString") ])
  ∧ (∀ k, k ∈ dom (rooms (state_of (run evs initial))) → inherited k = false).
Proof.
  apply (inherited_names_are_no_rooms posix_env "A" (Some "toString") (Some "Alice")
           (Some "a@x.org") None
           [ (posix_env, JoinRoom "A" (Some "r1") (Some "Alice") None None);
             (posix_env, JoinRoom "A" (Some "hasOwnProperty") (Some "Alice")
                           (Some "a@x.org") None);
             (posix_env, LeaveRoom "A" (Some "valueOf")) ] initial).
  - reflexivity.
  - intros k Hk. by apply not_elem_of_empty in Hk.
Defined.
